(** * recon_compare.py: comparison of MRI reconstruction models

    A shallow embedding of [recon_compare.py] (functions [compute_metrics],
    [write_views_png] and the [__main__] script) together with the
    properties its specification states.

    Conventions of the embedding.
    - A numpy array is a record of a dtype tag, a shape and its elements in
      row-major (C) order.  Element arithmetic is an interface ([Numeric]);
      nothing below depends on how numbers are represented.
    - Arrays that are passed to code that may write into its arguments
      (the metric routines of [utils.metrics], [DeepRecon.run]) live in a
      store of objects addressed by location, so that [x.copy()] and a plain
      reference differ.
    - Effects on the outside world (files written, directories created,
      figures shown) are recorded in a trace, oldest event first.
    - Python exceptions are a result type threaded through a state monad;
      the store and the trace survive a raised exception.
    - [logger.info], [os.environ] and [del] have no effect on any array or
      file modelled here and are left out. *)

From stdpp Require Import base tactics option list strings.
From Stdlib Require Import ZArith Lia Ascii Floats.

Set Default Proof Using "Type".

(** ** Arrays *)

Inductive dtype := UInt8 | Float32 | Float64 | Complex64 | Complex128.

#[global] Instance dtype_eq_dec : EqDecision dtype.
Proof. solve_decision. Defined.

Inductive exn :=
| ZeroDivisionError
| IndexError
| ValueError
| IOError
| ExternalError (who : string).

Inductive result (A : Type) :=
| Ok (a : A)
| Raise (e : exn).
Arguments Ok {A} a.
Arguments Raise {A} e.

Definition result_bind {A B} (r : result A) (k : A → result B) : result B :=
  match r with
  | Ok a => k a
  | Raise e => Raise e
  end.

Definition of_option {A} (e : exn) (o : option A) : result A :=
  match o with
  | Some a => Ok a
  | None => Raise e
  end.

#[global] Instance result_ret : MRet result := λ A a, Ok a.
#[global] Instance result_bind_inst : MBind result := λ A B k r, result_bind r k.

(** [for x in l: acc = f(acc, x)] in a monad. *)
Fixpoint foldM {M : Type → Type} `{!MBind M, !MRet M} {A B}
    (f : B → A → M B) (b : B) (l : list A) : M B :=
  match l with
  | [] => mret b
  | x :: l' => b' ← f b x; foldM f b' l'
  end.

(** Element arithmetic, as numpy provides it for every dtype.  Division is
    the IEEE one of [numpy.true_divide]: it is total (a zero divisor gives
    an infinity or a NaN and a warning, never an exception). *)
Class Numeric (E : Type) := {
  num_of_Z : Z → E;            (* a Python integer literal *)
  num_0_9 : E;                 (* the literal [0.9] *)
  num_add : E → E → E;
  num_mul : E → E → E;
  num_div : E → E → E;
  num_abs : E → E;
  num_max : E → E → E;
  num_cast : dtype → E → E     (* conversion of one element to a dtype *)
}.

Module NDArray.

Record ndarray (E : Type) := mk_ndarray {
  arr_dtype : dtype;
  shape : list nat;
  data : list E
}.
Arguments mk_ndarray {E} arr_dtype shape data.
Arguments arr_dtype {E} _.
Arguments shape {E} _.
Arguments data {E} _.

(** Number of elements of a shape ([numpy.prod(shape)]). *)
Definition size (sh : list nat) : nat := foldr Nat.mul 1 sh.

Definition ndim {E} (a : ndarray E) : nat := length (shape a).

(** An array is well formed when it holds one element per position. *)
Definition valid {E} (a : ndarray E) : Prop := length (data a) = size (shape a).

(** [shape[k]] for a non-negative [k]: out of range raises [IndexError]. *)
Definition shape_at {E} (a : ndarray E) (k : nat) : result nat :=
  of_option IndexError (shape a !! k).

(** [shape[-1]]. *)
Definition shape_last {E} (a : ndarray E) : result nat :=
  of_option IndexError (last (shape a)).

(** All positions of a shape, in row-major order. *)
Fixpoint indices (sh : list nat) : list (list nat) :=
  match sh with
  | [] => [[]]
  | n :: sh' => i ← seq 0 n; (cons i) <$> indices sh'
  end.

(** Row-major offset of a position; [None] when the position is outside
    the shape or has the wrong number of coordinates. *)
Fixpoint offset (sh idx : list nat) : option nat :=
  match sh, idx with
  | [], [] => Some 0
  | n :: sh', i :: idx' =>
      if decide (i < n) then (λ o, i * size sh' + o) <$> offset sh' idx' else None
  | _, _ => None
  end.

(** [a[i0, i1, ...]] with one non-negative integer per axis. *)
Definition get {E} (a : ndarray E) (idx : list nat) : option E :=
  o ← offset (shape a) idx; data a !! o.

(** Build the elements of an array position by position. *)
Definition gather {E} (sh : list nat) (f : list nat → option E) : option (list E) :=
  mapM f (indices sh).

(** *** Operations of numpy *)

Section ops.
Context {E : Type} `{!Numeric E}.

(** [a.copy()], as a value. *)
Definition copy (a : ndarray E) : ndarray E :=
  mk_ndarray (arr_dtype a) (shape a) (data a).

(** [a.astype(dt)] and [np.uint8(a)]. *)
Definition astype (dt : dtype) (a : ndarray E) : ndarray E :=
  mk_ndarray dt (shape a) (num_cast dt <$> data a).

(** [np.reshape(a, sh)]. *)
Definition reshape (a : ndarray E) (sh : list nat) : result (ndarray E) :=
  if decide (size sh = size (shape a))
  then Ok (mk_ndarray (arr_dtype a) sh (data a))
  else Raise ValueError.

(** [np.expand_dims(a, axis)] for a non-negative axis. *)
Definition expand_dims (a : ndarray E) (axis : nat) : result (ndarray E) :=
  if decide (axis ≤ ndim a)
  then Ok (mk_ndarray (arr_dtype a)
             (take axis (shape a) ++ 1 :: drop axis (shape a)) (data a))
  else Raise ValueError.

(** dtype of [np.abs]: the magnitude of a complex number is real. *)
Definition abs_dtype (dt : dtype) : dtype :=
  match dt with
  | Complex64 => Float32
  | Complex128 => Float64
  | _ => dt
  end.

Definition absolute (a : ndarray E) : ndarray E :=
  mk_ndarray (abs_dtype (arr_dtype a)) (shape a) (num_abs <$> data a).

(** [np.max(a)]: the maximum of no element is an error. *)
Definition amax (a : ndarray E) : result E :=
  match data a with
  | [] => Raise ValueError
  | x :: l => Ok (foldl num_max x l)
  end.

(** [a / s] and [a * s] for a scalar [s]. *)
Definition div_scalar (a : ndarray E) (s : E) : ndarray E :=
  mk_ndarray (arr_dtype a) (shape a) ((λ x, num_div x s) <$> data a).
Definition mul_scalar (a : ndarray E) (s : E) : ndarray E :=
  mk_ndarray (arr_dtype a) (shape a) ((λ x, num_mul x s) <$> data a).

(** Type promotion of a binary operation on two arrays. *)
Definition is_complex (dt : dtype) : bool :=
  match dt with Complex64 | Complex128 => true | _ => false end.
Definition is_double (dt : dtype) : bool :=
  match dt with Float64 | Complex128 => true | _ => false end.
Definition result_type (d1 d2 : dtype) : dtype :=
  match d1, d2 with
  | UInt8, d | d, UInt8 => d
  | _, _ =>
      match is_complex d1 || is_complex d2, is_double d1 || is_double d2 with
      | true, true => Complex128
      | true, false => Complex64
      | false, true => Float64
      | false, false => Float32
      end
  end.

(** Broadcasting: shapes are aligned on their last axis; two extents are
    compatible when they are equal or one of them is 1. *)
Definition broadcast_dim (a b : nat) : option nat :=
  if decide (a = b) then Some a
  else if decide (a = 1) then Some b
  else if decide (b = 1) then Some a
  else None.

Fixpoint broadcast_rev (r1 r2 : list nat) : option (list nat) :=
  match r1, r2 with
  | [], r | r, [] => Some r
  | a :: r1', b :: r2' => d ← broadcast_dim a b; (cons d) <$> broadcast_rev r1' r2'
  end.

Definition broadcast_shapes (sh1 sh2 : list nat) : option (list nat) :=
  reverse <$> broadcast_rev (reverse sh1) (reverse sh2).

(** The position read in an operand of shape [sh] for position [idx] of
    the broadcast result. *)
Definition operand_index (sh idx : list nat) : list nat :=
  zip_with (λ n i, if decide (n = 1) then 0 else i)
           sh (drop (length idx - length sh) idx).

(** [a * b] on arrays. *)
Definition multiply (a b : ndarray E) : result (ndarray E) :=
  sh ← of_option ValueError (broadcast_shapes (shape a) (shape b));
  d ← of_option ValueError
        (gather sh (λ idx,
           x ← get a (operand_index (shape a) idx);
           y ← get b (operand_index (shape b) idx);
           Some (num_mul x y)));
  Ok (mk_ndarray (result_type (arr_dtype a) (arr_dtype b)) sh d).

(** Basic indexing [a[s0, s1, ...]] where each [s] is [:] or a
    non-negative integer; axes without a selector are kept whole. *)
Inductive selector := Slice | At (i : nat).

Fixpoint sub_shape (sel : list selector) (sh : list nat) : option (list nat) :=
  match sel, sh with
  | [], _ => Some sh
  | Slice :: sel', n :: sh' => (cons n) <$> sub_shape sel' sh'
  | At i :: sel', n :: sh' => if decide (i < n) then sub_shape sel' sh' else None
  | _ :: _, [] => None
  end.

Fixpoint sub_index (sel : list selector) (idx : list nat) : list nat :=
  match sel with
  | [] => idx
  | At i :: sel' => i :: sub_index sel' idx
  | Slice :: sel' =>
      match idx with
      | j :: idx' => j :: sub_index sel' idx'
      | [] => []
      end
  end.

Definition subscript (a : ndarray E) (sel : list selector) : result (ndarray E) :=
  sh ← of_option IndexError (sub_shape sel (shape a));
  d ← of_option IndexError (gather sh (λ idx, get a (sub_index sel idx)));
  Ok (mk_ndarray (arr_dtype a) sh d).

End ops.

End NDArray.

(** ** The program *)

Module Recon.
Import NDArray.

(** [posixpath.join] of two components. *)
Definition is_absolute (p : string) : bool :=
  match p with
  | String "/"%char _ => true
  | _ => false
  end.

Fixpoint ends_with_sep (p : string) : bool :=
  match p with
  | EmptyString => false
  | String c EmptyString => if decide (c = "/"%char) then true else false
  | String _ p' => ends_with_sep p'
  end.

Definition path_join (a b : string) : string :=
  if is_absolute b then b
  else if decide (a = "") then b
  else if ends_with_sep a then a +:+ b
  else a +:+ "/" +:+ b.

(** [s] ends with [suf]. *)
Fixpoint has_suffix (suf s : string) : bool :=
  if decide (suf = s) then true
  else match s with
       | EmptyString => false
       | String _ s' => has_suffix suf s'
       end.

(** Command line of the script ([argparse]). *)
Record args := {
  arg_model_root_dir : string;
  arg_kspace_truth : string;
  arg_output_dir : string;
  arg_sensemap : option string;
  arg_device : string;
  arg_batch_size : Z;
  arg_verbose : bool;
  arg_plot : bool;
  arg_logfile : option string
}.

Inductive log_level := INFO | WARNING.

(** Truth value of [args.sensemap]: [None] and the empty string are false. *)
Definition truthy (o : option string) : option string :=
  match o with
  | Some (String c p) => Some (String c p)
  | _ => None
  end.

(** The array files of the output directory. *)
Definition input_file (a : args) : string :=
  path_join (arg_output_dir a) "kspace_input.npy".
Definition sensemap_file (a : args) : string :=
  path_join (arg_output_dir a) "sensemap.npy".
Definition model_file (a : args) (model_basename : string) : string :=
  path_join (arg_output_dir a) (("kspace_" +:+ model_basename) +:+ ".npy").

Definition random_seed : Z := 1000.
Definition mask_accel : Z := 12.
Definition mask_calib : Z := 20.

(** Objects of the store are addressed by their rank of creation. *)
Abbreviation loc := nat.

(** What an event shows to the outside, without the arrays it carries: its
    kind and the directory, file, figure title or model it names. *)
Inductive label :=
| LMakedirs (dir : string)
| LImage (path : string)
| LArray (path : string)
| LShow (title : string)
| LCall (model_name : string).

Definition label_file (lb : label) : option string :=
  match lb with
  | LImage p | LArray p => Some p
  | _ => None
  end.

(** The three files of [write_views_png]. *)
Definition views_files (filebase : string) : list string :=
  [filebase +:+ "_sag.png"; filebase +:+ "_cor.png"; filebase +:+ "_ax.png"].

(** The files of a run over the models [model_list], in the order in which
    they are written. *)
Definition output_files (a : args) (model_list : list string) : list string :=
  [path_join (arg_output_dir a) "mask.png"; input_file a]
  ++ match truthy (arg_sensemap a) with
     | Some _ => []
     | None => [sensemap_file a]
     end
  ++ views_files (path_join (arg_output_dir a) "truth")
  ++ views_files (path_join (arg_output_dir a) "input")
  ++ (model_basename ← model_list;
      model_file a model_basename
      :: views_files (path_join (arg_output_dir a) model_basename)).

Section program.
Context {E : Type} `{!Numeric E}.

Inductive event :=
| Makedirs (dir : string)
| ImWrite (path : string) (img : ndarray E)
| NpSave (path : string) (l : loc) (arr : ndarray E)
| PyplotShow (title : string) (img : ndarray E)
(* [model.run(k, s)] was entered: the objects passed and what they held *)
| Call (model_name : string) (l_kspace l_sensemap : loc) (v_kspace v_sensemap : ndarray E).

Record state := mk_state {
  heap : list (ndarray E);
  trace : list event
}.

Definition M (A : Type) : Type := state → result A * state.

#[global] Instance M_ret : MRet M := λ A a s, (Ok a, s).
#[global] Instance M_bind : MBind M := λ A B k m s,
  match m s with
  | (Ok a, s') => k a s'
  | (Raise e, s') => (Raise e, s')
  end.

Definition lift {A} (r : result A) : M A := λ s, (r, s).

Definition alloc (a : ndarray E) : M loc := λ s,
  (Ok (length (heap s)), mk_state (heap s ++ [a]) (trace s)).

(** Every location the program holds was allocated before; the error case
    is never reached from [main]. *)
Definition read (l : loc) : M (ndarray E) := λ s,
  (of_option (ExternalError "no such object") (heap s !! l), s).

Definition write (l : loc) (a : ndarray E) : M unit := λ s,
  (Ok tt, mk_state (<[l := a]> (heap s)) (trace s)).

Definition emit (e : event) : M unit := λ s,
  (Ok tt, mk_state (heap s) (trace s ++ [e])).

(** What holds of the outcome and the final state of a computation
    started in [s]. *)
Definition wp {A} (m : M A) (Q : result A → state → Prop) (s : state) : Prop :=
  Q (m s).1 (m s).2.

(** [s'] extends [s0]: objects were added, and the objects of [s0] other
    than those in [X] hold what they held. *)
Definition extends (X : list loc) (s0 s' : state) : Prop :=
  length (heap s0) ≤ length (heap s') ∧
  ∀ l, l < length (heap s0) → l ∉ X → heap s' !! l = heap s0 !! l.

(** What the script does after it saved the input k-space is described
    relative to the command line, the names of the model directory, the
    input k-space and the object holding the sensitivity maps. *)
Record loop_ctx := {
  cx_args : args;
  cx_models : list string;
  cx_kspace : ndarray E;
  cx_sensemap : loc
}.

(** What holds of an event emitted once the store had [n] objects: an
    array saved is an object made since then, and goes to [sensemap.npy]
    (computed maps only) or to the file of a model; an image goes to a
    [.png] file; the k-space handed to a model is an object made since then
    and holds the input k-space; the sensitivity maps handed to a model are
    the shared object itself. *)
Definition event_ok (cx : loop_ctx) (n : nat) (e : event) : Prop :=
  match e with
  | NpSave p l _ =>
      n ≤ l ∧
      ((truthy (arg_sensemap (cx_args cx)) = None ∧ p = sensemap_file (cx_args cx)) ∨
       ∃ m, m ∈ cx_models cx ∧ p = model_file (cx_args cx) m)
  | ImWrite p _ => has_suffix ".png" p = true
  | Call _ k ls vk _ => n ≤ k ∧ ls = cx_sensemap cx ∧ vk = cx_kspace cx
  | _ => True
  end.

(** What holds of an event emitted before the input k-space is saved. *)
Definition setup_event_ok (e : event) : Prop :=
  match e with
  | Makedirs _ => True
  | ImWrite p _ => has_suffix ".png" p = true
  | _ => False
  end.

Definition evolves (X : list loc) (cx : loop_ctx) (s0 s' : state) : Prop :=
  extends X s0 s' ∧
  ∃ new, trace s' = trace s0 ++ new ∧ Forall (event_ok cx (length (heap s0))) new.

(** The file an event writes. *)
Definition written_file (e : event) : option string :=
  match e with
  | ImWrite p _ | NpSave p _ _ => Some p
  | _ => None
  end.

(** The saves of a trace: path, object and contents. *)
Definition saves (tr : list event) : list (string * loc * ndarray E) :=
  omap (λ e, match e with NpSave p l v => Some (p, l, v) | _ => None end) tr.

(** The calls of [model.run] of a trace. *)
Definition calls (tr : list event)
    : list (string * loc * loc * ndarray E * ndarray E) :=
  omap (λ e, match e with
             | Call name k ls vk vs => Some (name, k, ls, vk, vs)
             | _ => None
             end) tr.

(** [s'] extends [s0] and nothing was written to the outside. *)
Definition grows (s0 s' : state) : Prop :=
  extends [] s0 s' ∧ trace s' = trace s0.

(** [a.copy()] on an object of the store. *)
Definition copy_obj (l : loc) : M loc := a ← read l; alloc (copy a).

(** A routine of another module that receives two arrays.  It is given by
    its outcome and by what it leaves in the two arrays it received: it may
    compute in place, and it reaches no other object of this script. *)
Definition routine2 (T : Type) : Type :=
  ndarray E → ndarray E → result T * ndarray E * ndarray E.

Definition outcome {T} (x : result T * ndarray E * ndarray E) : result T := x.1.1.

Definition call2 {T} (f : routine2 T) (a b : loc) : M T :=
  va ← read a;
  vb ← read b;
  let '(r, va', vb') := f va vb in
  _ ← write a va';
  _ ← write b vb';
  lift r.

(** [imageio.imwrite] and [np.save]: the file system accepts every write.
    A save records the object that was saved and what it held. *)
Definition imwrite (path : string) (img : ndarray E) : M unit := emit (ImWrite path img).
Definition np_save (path : string) (l : loc) : M unit := a ← read l; emit (NpSave path l a).

(** A Python number that is either a built-in [int] or a float. *)
Inductive pyval := PyInt (z : Z) | PyNum (e : E).

(** [a + b] where [b] is a float. *)
Definition py_add (a : pyval) (b : E) : pyval :=
  match a with
  | PyInt z => PyNum (num_add (num_of_Z z) b)
  | PyNum e => PyNum (num_add e b)
  end.

(** [a / n] where [n] is a built-in [int]: true division; [int / 0]
    raises.  A float dividend is divided as numpy does. *)
Definition py_truediv (a : pyval) (n : nat) : result pyval :=
  match a with
  | PyInt z =>
      if decide (n = 0) then Raise ZeroDivisionError
      else Ok (PyNum (num_div (num_of_Z z) (num_of_Z (Z.of_nat n))))
  | PyNum e => Ok (PyNum (num_div e (num_of_Z (Z.of_nat n))))
  end.

(** The dictionary [{'psnr': .., 'nrmse': .., 'ssim': ..}]. *)
Record metrics_result := mk_metrics {
  psnr : E;
  nrmse : E;
  ssim : pyval
}.

(** What the script takes from other modules and from the machine.
    [utils.metrics], [utils.fftc], [utils.mri] and [recon_run] belong to the
    repository and [sigpy] does not; none is part of [recon_compare.py].
    The metric routines and the models may write into the arrays they are
    given ([routine2]); the other routines are taken as functions of their
    arguments, which may fail. *)
Record world := {
  np_load : string → result (ndarray E);
  path_exists : string → bool;
  listdir : string → result (list string);
  (* sigpy.mri.poisson(img_shape, accel, calib=.., seed=..) *)
  poisson : list nat → Z → list Z → Z → result (ndarray E);
  (* sigpy.mri.app.JsenseRecon(ksp, ksp_calib_width=..).run() *)
  jsense_recon : ndarray E → Z → result (ndarray E);
  ifft3c : ndarray E → result (ndarray E);
  (* mri.sumofsq(x, axis=..) *)
  sumofsq : ndarray E → Z → result (ndarray E);
  compute_psnr : routine2 E;
  compute_nrmse : routine2 E;
  (* metrics.compute_ssim(ref, x, sos_axis=..) *)
  compute_ssim : Z → routine2 E;
  (* recon_run.DeepRecon(name, channels, z, y, batch_size=.., log_level=..);
     the model object is its [run] method *)
  DeepRecon : string → nat → nat → nat → Z → log_level → result (routine2 (ndarray E))
}.

Context (W : world).

(** *** compute_metrics *)

(** Body of [for i in range(ref.shape[-1])]. *)
Definition ssim_step (ref x : loc) (ssim_total : pyval) (i : nat) : M pyval :=
  rv ← read ref;
  rs ← lift (subscript rv [Slice; Slice; Slice; At i]);
  rc ← alloc (copy rs);
  xv ← read x;
  xs ← lift (subscript xv [Slice; Slice; Slice; At i]);
  xc ← alloc (copy xs);
  ssim_i ← call2 (compute_ssim W 0) rc xc;
  mret (py_add ssim_total ssim_i).

Definition compute_metrics (ref x : loc) : M metrics_result :=
  r1 ← copy_obj ref;
  x1 ← copy_obj x;
  psnr ← call2 (compute_psnr W) r1 x1;
  r2 ← copy_obj ref;
  x2 ← copy_obj x;
  nrmse ← call2 (compute_nrmse W) r2 x2;
  rv ← read ref;
  n ← lift (shape_last rv);
  ssim_total ← foldM (ssim_step ref x) (PyInt 0) (seq 0 n);
  rv ← read ref;
  n ← lift (shape_last rv);
  ssim ← lift (py_truediv ssim_total n);
  mret (mk_metrics psnr nrmse ssim).

(** The value [compute_metrics] computes when [ref] holds [rv] and [x]
    holds [xv]: the same steps on values, without the store. *)
Definition per_volume_ssim (rv xv : ndarray E) (i : nat) : result E :=
  rs ← subscript rv [Slice; Slice; Slice; At i];
  xs ← subscript xv [Slice; Slice; Slice; At i];
  outcome (compute_ssim W 0 (copy rs) (copy xs)).

Definition compute_metrics_value (rv xv : ndarray E) : result metrics_result :=
  psnr ← outcome (compute_psnr W (copy rv) (copy xv));
  nrmse ← outcome (compute_nrmse W (copy rv) (copy xv));
  n ← shape_last rv;
  ssim_total ← foldM (λ ssim_total i,
                        ssim_i ← per_volume_ssim rv xv i;
                        mret (py_add ssim_total ssim_i))
                     (PyInt 0) (seq 0 n);
  ssim ← py_truediv ssim_total n;
  mret (mk_metrics psnr nrmse ssim).

(** The arithmetic mean of a list of numbers, [sum(l) / len(l)]. *)
Definition arithmetic_mean (l : list E) : E :=
  num_div (foldl num_add (num_of_Z 0) l) (num_of_Z (Z.of_nat (length l))).

(** *** write_views_png *)

Definition write_views_png (filebase : string) (image : ndarray E) : M unit :=
  m ← lift (amax (absolute image));
  let image_out :=
    mul_scalar (div_scalar image (num_mul m num_0_9)) (num_of_Z 255) in
  s0 ← lift (shape_at image_out 0);
  v ← lift (subscript image_out [At (s0 / 2); Slice; Slice]);
  _ ← imwrite (filebase +:+ "_sag.png") (astype UInt8 v);
  s1 ← lift (shape_at image_out 1);
  v ← lift (subscript image_out [Slice; At (s1 / 2); Slice]);
  _ ← imwrite (filebase +:+ "_cor.png") (astype UInt8 v);
  s2 ← lift (shape_at image_out 2);
  v ← lift (subscript image_out [Slice; Slice; At (s2 / 2)]);
  imwrite (filebase +:+ "_ax.png") (astype UInt8 v).

(** One pixel of a view: the value divided by [0.9] times the maximum [m],
    times 255, converted to [uint8] (the conversion is all the clamping
    there is). *)
Definition view_pixel (m v : E) : E :=
  num_cast UInt8 (num_mul (num_div v (num_mul m num_0_9)) (num_of_Z 255)).

(** *** The script *)

Definition when (b : bool) (m : M unit) : M unit := if b then m else mret tt.

(** [pyplot.figure(); pyplot.imshow(sos[sos.shape[0]//2, :, :]);
    pyplot.title(title); pyplot.pause(0.1)]. *)
Definition show_plot (title : string) (image_sos : ndarray E) : M unit :=
  s0 ← lift (shape_at image_sos 0);
  v ← lift (subscript image_sos [At (s0 / 2); Slice; Slice]);
  emit (PyplotShow title v).

(** Lines 91-103: the sampling mask and the input k-space. *)
Definition apply_mask (a : args) (kspace_truth : ndarray E)
    (shape_z shape_y : nat) : M loc :=
  mask ← lift (poisson W [shape_z; shape_y] mask_accel
                 [mask_calib; mask_calib] random_seed);
  let file_png := path_join (arg_output_dir a) "mask.png" in
  _ ← imwrite file_png (astype UInt8 (mul_scalar (absolute mask) (num_of_Z 255)));
  mask ← lift (reshape mask [1; shape_z; shape_y; 1]);
  kspace_input ← lift (multiply mask kspace_truth);
  kspace_input ← alloc (astype Complex64 kspace_input);
  let file_input := path_join (arg_output_dir a) "kspace_input.npy" in
  _ ← np_save file_input kspace_input;
  mret kspace_input.

(** Lines 116-118: [if sensemap.ndim != 5: sensemap =
    np.expand_dims(sensemap, axis=0)], on the value of the array. *)
Definition add_maps_dimension (sensemap : ndarray E) : result (ndarray E) :=
  if decide (ndim sensemap ≠ 5) then expand_dims sensemap 0 else Ok sensemap.

(** Lines 105-118: the sensitivity maps.  The array bound to [sensemap]
    at the end is stored as an object of its own; the one it replaces is
    referenced by nothing afterwards. *)
Definition load_sensemap (a : args) (kspace_input : loc) : M loc :=
  sensemap ←
    match truthy (arg_sensemap a) with
    | Some path =>
        sensemap ← lift (np_load W path);
        alloc sensemap
    | None =>
        ki ← read kspace_input;
        sensemap ← lift (jsense_recon W ki mask_calib);
        sensemap ← alloc (astype Complex64 sensemap);
        _ ← np_save (path_join (arg_output_dir a) "sensemap.npy") sensemap;
        mret sensemap
    end;
  v ← read sensemap;
  v' ← lift (add_maps_dimension v);
  alloc v'.

(** Lines 147-173: the body of [for model_basename in model_list]. *)
Definition run_model (a : args) (num_channels shape_z shape_y : nat)
    (lvl : log_level) (kspace_input sensemap image_truth : loc)
    (model_basename : string) : M unit :=
  let model_name := path_join (arg_model_root_dir a) model_basename in
  model ← lift (DeepRecon W model_name num_channels shape_z shape_y
                  (arg_batch_size a) lvl);
  k ← copy_obj kspace_input;
  vk ← read k;
  vs ← read sensemap;
  _ ← emit (Call model_name k sensemap vk vs);
  kspace_output ← call2 model k sensemap;
  kspace_output ← alloc (astype Complex64 kspace_output);
  let file_out :=
    path_join (arg_output_dir a) (("kspace_" +:+ model_basename) +:+ ".npy") in
  _ ← np_save file_out kspace_output;
  ko ← read kspace_output;
  image_output ← lift (ifft3c W ko);
  image_output ← alloc image_output;
  results ← compute_metrics image_truth image_output;
  io ← read image_output;
  image_output_sos ← lift (sumofsq W io 0);
  _ ← write_views_png (path_join (arg_output_dir a) model_basename) image_output_sos;
  when (arg_plot a) (show_plot model_basename image_output_sos).

(** Lines 144-173. *)
Definition model_loop (a : args) (num_channels shape_z shape_y : nat)
    (lvl : log_level) (kspace_input sensemap image_truth : loc)
    (model_list : list string) : M unit :=
  foldM (λ _ model_basename,
           run_model a num_channels shape_z shape_y lvl
                     kspace_input sensemap image_truth model_basename)
        tt model_list.

(** Lines 120-128: the truth images. *)
Definition truth_comparison (a : args) (kspace_truth : ndarray E) : M loc :=
  image_truth ← lift (ifft3c W kspace_truth);
  image_truth ← alloc image_truth;
  it ← read image_truth;
  image_truth_sos ← lift (sumofsq W it 0);
  _ ← write_views_png (path_join (arg_output_dir a) "truth") image_truth_sos;
  _ ← when (arg_plot a) (show_plot "Truth" image_truth_sos);
  mret image_truth.

(** Lines 130-142: the images and the metrics of the input. *)
Definition input_comparison (a : args) (kspace_input image_truth : loc) : M unit :=
  ki ← read kspace_input;
  image_input ← lift (ifft3c W ki);
  image_input ← alloc image_input;
  results ← compute_metrics image_truth image_input;
  ii ← read image_input;
  image_input_sos ← lift (sumofsq W ii 0);
  _ ← write_views_png (path_join (arg_output_dir a) "input") image_input_sos;
  when (arg_plot a) (show_plot "Input" image_input_sos).

(** The [__main__] block. *)
Definition main (a : args) : M unit :=
  let lvl := if arg_verbose a then INFO else WARNING in
  kspace_truth ← lift (np_load W (arg_kspace_truth a));
  num_channels ← lift (shape_at kspace_truth 0);
  shape_z ← lift (shape_at kspace_truth 1);
  shape_y ← lift (shape_at kspace_truth 2);
  shape_x ← lift (shape_at kspace_truth 3);
  _ ← when (negb (path_exists W (arg_output_dir a)))
           (emit (Makedirs (arg_output_dir a)));
  kspace_input ← apply_mask a kspace_truth shape_z shape_y;
  sensemap ← load_sensemap a kspace_input;
  image_truth ← truth_comparison a kspace_truth;
  _ ← input_comparison a kspace_input image_truth;
  model_list ← lift (listdir W (arg_model_root_dir a));
  model_loop a num_channels shape_z shape_y lvl
             kspace_input sensemap image_truth model_list.

(** The names found in the model directory. *)
Definition model_names (a : args) : list string :=
  match listdir W (arg_model_root_dir a) with
  | Ok model_list => model_list
  | Raise _ => []
  end.

(** The array saved as the input k-space (lines 78-100), as a value. *)
Definition masked_kspace (a : args) : result (ndarray E) :=
  kspace_truth ← np_load W (arg_kspace_truth a);
  shape_z ← shape_at kspace_truth 1;
  shape_y ← shape_at kspace_truth 2;
  mask ← poisson W [shape_z; shape_y] mask_accel [mask_calib; mask_calib] random_seed;
  mask ← reshape mask [1; shape_z; shape_y; 1];
  kspace_input ← multiply mask kspace_truth;
  mret (astype Complex64 kspace_input).

(** A run of the script: a fresh process has no array and has written
    nothing. *)
Definition run (a : args) : result unit * state := main a (mk_state [] []).

(** *** What a run shows to the outside *)

Definition label_of (e : event) : label :=
  match e with
  | Makedirs dir => LMakedirs dir
  | ImWrite path _ => LImage path
  | NpSave path _ _ => LArray path
  | PyplotShow title _ => LShow title
  | Call model_name _ _ _ _ => LCall model_name
  end.

Definition written_files (tr : list event) : list string := omap written_file tr.

(** The titles of the figures shown and the models called, oldest first. *)
Definition shown_titles (tr : list event) : list string :=
  omap (λ e, match e with PyplotShow title _ => Some title | _ => None end) tr.

Definition called_models (tr : list event) : list string :=
  omap (λ e, match e with Call name _ _ _ _ => Some name | _ => None end) tr.

Definition plot_labels (a : args) (title : string) : list label :=
  if arg_plot a then [LShow title] else [].

Definition views_labels (filebase : string) : list label :=
  LImage <$> views_files filebase.

(** The labels of one iteration of the model loop, and of a whole run. *)
Definition model_labels (a : args) (model_basename : string) : list label :=
  LCall (path_join (arg_model_root_dir a) model_basename)
  :: LArray (model_file a model_basename)
  :: views_labels (path_join (arg_output_dir a) model_basename)
  ++ plot_labels a model_basename.

Definition run_labels (a : args) : list label :=
  (if path_exists W (arg_output_dir a) then [] else [LMakedirs (arg_output_dir a)])
  ++ [LImage (path_join (arg_output_dir a) "mask.png"); LArray (input_file a)]
  ++ match truthy (arg_sensemap a) with
     | Some _ => []
     | None => [LArray (sensemap_file a)]
     end
  ++ views_labels (path_join (arg_output_dir a) "truth") ++ plot_labels a "Truth"
  ++ views_labels (path_join (arg_output_dir a) "input") ++ plot_labels a "Input"
  ++ (model_basename ← model_names a; model_labels a model_basename).

(** [m] appends to the trace events labelled [L] when it returns, and an
    initial part of them when it raises. *)
Definition emits {A} (m : M A) (L : list label) : Prop :=
  ∀ s, ∃ new,
    trace (m s).2 = trace s ++ new ∧
    match (m s).1 with
    | Ok _ => label_of <$> new = L
    | Raise _ => label_of <$> new `prefix_of` L
    end.

(** Every event [m] appends to the trace satisfies [P]. *)
Definition always {A} (P : event → Prop) (m : M A) : Prop :=
  ∀ s, ∃ new, trace (m s).2 = trace s ++ new ∧ Forall P new.

(** The dtypes the script gives to what it writes: [np.uint8] for images,
    [np.complex64] for arrays. *)
Definition written_dtype_ok (e : event) : Prop :=
  match e with
  | ImWrite _ img => arr_dtype img = UInt8
  | NpSave _ _ arr => arr_dtype arr = Complex64
  | _ => True
  end.

End program.

End Recon.

(** ** A concrete machine: IEEE binary64 numbers and a small world *)

Module Binary64.
Import NDArray Recon.

(** The float nearest to an integer. *)
Definition float_of_Z (z : Z) : float :=
  SF2Prim (binary_normalize prec emax z 0 false).

(** Rounding to single precision, as the conversion to [float32] or
    [complex64] does. *)
Definition round32 (f : float) : float :=
  match Prim2SF f with
  | S754_finite s m e =>
      SF2Prim (binary_normalize 24 128 (if s then Z.neg m else Z.pos m) e s)
  | _ => f
  end.

(** Conversion to [uint8]: truncation towards zero, then the low eight
    bits; a NaN or an infinity gives 0 (what the x86-64 conversion
    leaves). *)
Definition to_uint8 (f : float) : Z :=
  match Prim2SF f with
  | S754_finite s m e =>
      let t := if (0 <=? e)%Z then (Z.pos m * 2 ^ e)%Z else (Z.pos m / 2 ^ (- e))%Z in
      ((if s then - t else t) mod 256)%Z
  | _ => 0%Z
  end.

(** [numpy.maximum]: a NaN wins. *)
Definition fmax (a b : float) : float :=
  if PrimFloat.is_nan a then a
  else if PrimFloat.is_nan b then b
  else if PrimFloat.ltb a b then b else a.

Definition cast (dt : dtype) (f : float) : float :=
  match dt with
  | UInt8 => float_of_Z (to_uint8 f)
  | Float32 | Complex64 => round32 f
  | Float64 | Complex128 => f
  end.

(** Numbers with no imaginary part, in binary64. *)
#[global] Instance float_numeric : Numeric float := {
  num_of_Z := float_of_Z;
  num_0_9 := 0x1.ccccccccccccdp-1%float;
  num_add := PrimFloat.add;
  num_mul := PrimFloat.mul;
  num_div := PrimFloat.div;
  num_abs := PrimFloat.abs;
  num_max := fmax;
  num_cast := cast
}.

Definition zeros_like (a : ndarray float) : ndarray float :=
  mk_ndarray (arr_dtype a) (shape a) ((λ _, 0%float) <$> data a).

Definition ones (dt : dtype) (sh : list nat) : ndarray float :=
  mk_ndarray dt sh (replicate (size sh) 1%float).

(** A truth k-space of one coil and a [2 x 2 x 1] volume. *)
Definition truth0 : ndarray float :=
  mk_ndarray Complex64 [1; 2; 2; 1] [1; 2; 3; 4]%float.

(** A mask that keeps the diagonal. *)
Definition mask0 : ndarray float :=
  mk_ndarray Complex128 [2; 2] [1; 0; 0; 1]%float.

(** A metric routine that answers [v] and overwrites both arrays it was
    given. *)
Definition scribbling_metric (v : float) : routine2 float :=
  λ a b, (Ok v, zeros_like a, zeros_like b).

(** A model that returns the k-space it was given and clears the
    sensitivity maps in place. *)
Definition clearing_model : routine2 (ndarray float) :=
  λ k s, (Ok k, k, zeros_like s).

(** A world with the truth k-space in [truth.npy], sensitivity maps in
    [maps.npy], the models of [model_list] under the model directory, and
    stand-ins for the transforms. *)
Definition world0 (model_list : list string) : world := {|
  np_load path :=
    if decide (path = "truth.npy") then Ok truth0
    else if decide (path = "maps.npy") then Ok (ones Complex128 [1; 2; 2; 1])
    else Raise IOError;
  path_exists _ := false;
  listdir _ := Ok model_list;
  poisson sh _ _ _ := if decide (sh = [2; 2]) then Ok mask0 else Raise ValueError;
  jsense_recon ksp _ := Ok (ones Complex128 (shape ksp));
  ifft3c ksp := Ok ksp;
  sumofsq x _ := v ← subscript x [At 0]; Ok (absolute v);
  compute_psnr := scribbling_metric 30;
  compute_nrmse := scribbling_metric 0.5;
  compute_ssim _ := scribbling_metric 0.75;
  DeepRecon _ _ _ _ _ _ := Ok clearing_model
|}.

Definition args0 (maps : option string) : args := {|
  arg_model_root_dir := "models";
  arg_kspace_truth := "truth.npy";
  arg_output_dir := "out";
  arg_sensemap := maps;
  arg_device := "0";
  arg_batch_size := 1;
  arg_verbose := false;
  arg_plot := false;
  arg_logfile := None
|}.

(** A store holding a reference and a candidate of shape [(1,1,1,2)]. *)
Definition store0 : state (E := float) := {|
  heap := [mk_ndarray Complex64 [1; 1; 1; 2] [1; 2]%float;
           mk_ndarray Complex64 [1; 1; 1; 2] [1; 3]%float];
  trace := []
|}.

(** A store holding a reference and a candidate whose last axis is empty. *)
Definition store_empty : state (E := float) := {|
  heap := [mk_ndarray Complex64 [1; 1; 1; 0] [];
           mk_ndarray Complex64 [1; 1; 1; 0] []];
  trace := []
|}.

(** A store as the script has it when the model loop starts: the input
    k-space, the sensitivity maps and the truth image. *)
Definition store_loop : state (E := float) := {|
  heap := [mk_ndarray Complex64 [1; 2; 2; 1] [1; 0; 0; 4]%float;
           ones Complex64 [1; 1; 2; 2; 1];
           truth0];
  trace := []
|}.

(** Volumes for [write_views_png]. *)
Definition volume0 : ndarray float :=
  mk_ndarray Float64 [1; 2; 2] [1; 2; 3; -4]%float.
Definition zero_volume : ndarray float :=
  mk_ndarray Float64 [2; 2; 2] (replicate 8 0%float).
Definition empty_volume : ndarray float :=
  mk_ndarray Float64 [0; 2; 2] [].

(** Sensitivity maps with six axes. *)
Definition maps6 : ndarray float := ones Complex64 [1; 1; 1; 2; 2; 1].

(** The command line of [args0] with [--plot], and no maps supplied. *)
Definition args_plot : args := {|
  arg_model_root_dir := "models";
  arg_kspace_truth := "truth.npy";
  arg_output_dir := "out";
  arg_sensemap := None;
  arg_device := "0";
  arg_batch_size := 1;
  arg_verbose := false;
  arg_plot := true;
  arg_logfile := None
|}.

(** A model that writes into the k-space it is given and leaves the
    sensitivity maps alone. *)
Definition careful_model : routine2 (ndarray float) :=
  λ k s, (Ok k, zeros_like k, s).

(** A model whose [run] raises. *)
Definition failing_model : routine2 (E := float) (ndarray float) :=
  λ k s, (Raise (ExternalError "model"), k, s).

(** A world like [world0] whose output directory exists, with [truth] in
    [truth.npy] and [model] for every entry of the model directory. *)
Definition world1 (truth : ndarray float) (model : routine2 (ndarray float))
    (model_list : list string) : world := {|
  np_load path :=
    if decide (path = "truth.npy") then Ok truth else np_load (world0 []) path;
  path_exists _ := true;
  listdir _ := Ok model_list;
  poisson := poisson (world0 []);
  jsense_recon := jsense_recon (world0 []);
  ifft3c := ifft3c (world0 []);
  sumofsq := sumofsq (world0 []);
  compute_psnr := compute_psnr (world0 []);
  compute_nrmse := compute_nrmse (world0 []);
  compute_ssim := compute_ssim (world0 []);
  DeepRecon _ _ _ _ _ _ := Ok model
|}.

(** The arrays of [store0] at other places of a store that has a history. *)
Definition store0_moved : state (E := float) := {|
  heap := [truth0;
           mk_ndarray Complex64 [1; 1; 1; 2] [1; 3]%float;
           mk_ndarray Complex64 [1; 1; 1; 2] [1; 2]%float];
  trace := [Makedirs "out"]
|}.

(** A store holding a reference and a candidate with three axes. *)
Definition store_flat : state (E := float) := {|
  heap := [mk_ndarray Complex64 [1; 1; 2] [1; 2]%float;
           mk_ndarray Complex64 [1; 1; 2] [1; 3]%float];
  trace := []
|}.

(** An image with two axes. *)
Definition plane0 : ndarray float :=
  mk_ndarray Float64 [2; 2] [1; 2; 3; 4]%float.

End Binary64.

(** ** Facts on arrays *)

Module NDArrayFacts.
Import NDArray.

(** *** Facts on positions and offsets *)

Lemma bind_const_length {A B} (f : A → list B) (l : list A) m :
  (∀ x, x ∈ l → length (f x) = m) → length (l ≫= f) = length l * m.
Proof.
  induction l as [|x l IH]; intros Hf; [done|].
  rewrite bind_cons, length_app, IH, (Hf x); simpl; [lia|left|].
  intros y Hy. apply Hf. by right.
Qed.

Lemma indices_length sh : length (indices sh) = size sh.
Proof.
  induction sh as [|n sh IH]; simpl; [done|].
  rewrite (bind_const_length _ _ (size sh)), length_seq; [done|].
  intros x _. by rewrite length_fmap.
Qed.

Lemma bind_const_lookup {A B} (f : A → list B) (l : list A) m i x o :
  (∀ y, y ∈ l → length (f y) = m) →
  l !! i = Some x → o < m → (l ≫= f) !! (i * m + o) = f x !! o.
Proof.
  revert i. induction l as [|y l IH]; intros i Hf Hi Ho; [done|].
  rewrite bind_cons. destruct i as [|i]; simpl in *.
  - injection Hi as ->. rewrite lookup_app_l; [done|]. rewrite Hf; [done|left].
  - rewrite lookup_app_r; rewrite (Hf y); try left; [|lia].
    replace (m + i * m + o - m) with (i * m + o) by lia.
    apply IH; [|done..]. intros z Hz. apply Hf. by right.
Qed.

Lemma offset_lt sh idx o : offset sh idx = Some o → o < size sh.
Proof.
  revert idx o. induction sh as [|n sh IH]; intros [|i idx] o H; simpl in *; try done.
  - injection H as <-. lia.
  - case_decide; [|done].
    destruct (offset sh idx) as [o'|] eqn:Ho; [|done].
    injection H as <-. apply IH in Ho. nia.
Qed.

Lemma offset_length sh idx o : offset sh idx = Some o → length idx = length sh.
Proof.
  revert idx o. induction sh as [|n sh IH]; intros [|i idx] o H; simpl in *; try done.
  case_decide; [|done].
  destruct (offset sh idx) as [o'|] eqn:Ho; [|done]. f_equal. eauto.
Qed.

(** The position stored at a row-major offset is the position itself. *)
Lemma indices_lookup_offset sh idx o :
  offset sh idx = Some o → indices sh !! o = Some idx.
Proof.
  revert idx o. induction sh as [|n sh IH]; intros [|i idx] o H; simpl in *; try done.
  - by injection H as <-.
  - case_decide as Hi; [|done].
    destruct (offset sh idx) as [o'|] eqn:Ho; [|done].
    injection H as <-.
    rewrite (bind_const_lookup _ _ (size sh) i i o').
    + rewrite list_lookup_fmap, (IH _ _ Ho). done.
    + intros y _. by rewrite length_fmap, indices_length.
    + by apply lookup_seq_lt.
    + by eapply offset_lt.
Qed.

Lemma gather_lookup {E} sh (f : list nat → option E) d idx o :
  gather sh f = Some d → offset sh idx = Some o → d !! o = f idx.
Proof.
  unfold gather. intros Hd Ho. apply mapM_Some in Hd.
  pose proof (indices_lookup_offset _ _ _ Ho) as Hi.
  destruct (Forall2_lookup_l _ _ _ _ _ Hd Hi) as (y & Hy & Hf). congruence.
Qed.

Lemma gather_length {E} sh (f : list nat → option E) d :
  gather sh f = Some d → length d = size sh.
Proof.
  unfold gather. intros Hd. apply length_mapM in Hd. by rewrite <- Hd, indices_length.
Qed.

Lemma gather_is_Some {E} sh (f : list nat → option E) :
  (∀ idx, idx ∈ indices sh → is_Some (f idx)) → is_Some (gather sh f).
Proof. unfold gather. intros H. apply mapM_is_Some. by apply Forall_forall. Qed.

(** Every enumerated position lies inside the shape. *)
Lemma indices_offset sh idx : idx ∈ indices sh → is_Some (offset sh idx).
Proof.
  revert idx. induction sh as [|n sh IH]; intros idx H; simpl in *.
  - apply list_elem_of_singleton in H as ->. by eexists.
  - apply list_elem_of_bind in H as (i & Hidx & Hi).
    apply list_elem_of_fmap in Hidx as (idx' & -> & Hidx').
    apply elem_of_seq in Hi. simpl. rewrite decide_True by lia.
    destruct (IH _ Hidx') as [o ->]. by eexists.
Qed.

Section ops.
Context {E : Type} `{!Numeric E}.

(** *** Elements of the results *)

Lemma offset_is_Some sh idx : is_Some (offset sh idx) ↔ Forall2 lt idx sh.
Proof.
  revert idx. induction sh as [|n sh IH]; intros [|i idx]; simpl.
  - split; [constructor|by eexists].
  - split; [by intros [? ?]|inversion 1].
  - split; [by intros [? ?]|inversion 1].
  - rewrite Forall2_cons, <- IH. case_decide.
    + rewrite fmap_is_Some. tauto.
    + split; [by intros [? ?]|tauto].
Qed.

Lemma get_is_Some (a : ndarray E) idx :
  valid a → Forall2 lt idx (shape a) → is_Some (get a idx).
Proof.
  intros Hv Hb. apply offset_is_Some in Hb as [o Ho].
  unfold get. rewrite Ho. simpl. apply lookup_lt_is_Some.
  rewrite Hv. by eapply offset_lt.
Qed.

Lemma get_astype dt (a : ndarray E) idx :
  get (astype dt a) idx = num_cast dt <$> get a idx.
Proof.
  unfold get, astype; simpl. destruct (offset (shape a) idx); simpl; [|done].
  by rewrite list_lookup_fmap.
Qed.

Lemma get_div_scalar (a : ndarray E) s idx :
  get (div_scalar a s) idx = (λ x, num_div x s) <$> get a idx.
Proof.
  unfold get, div_scalar; simpl. destruct (offset (shape a) idx); simpl; [|done].
  by rewrite list_lookup_fmap.
Qed.

Lemma get_mul_scalar (a : ndarray E) s idx :
  get (mul_scalar a s) idx = (λ x, num_mul x s) <$> get a idx.
Proof.
  unfold get, mul_scalar; simpl. destruct (offset (shape a) idx); simpl; [|done].
  by rewrite list_lookup_fmap.
Qed.

Lemma get_absolute (a : ndarray E) idx :
  get (absolute a) idx = num_abs <$> get a idx.
Proof.
  unfold get, absolute; simpl. destruct (offset (shape a) idx); simpl; [|done].
  by rewrite list_lookup_fmap.
Qed.

Lemma valid_astype dt (a : ndarray E) : valid a → valid (astype dt a).
Proof. unfold valid, astype; simpl. by rewrite length_fmap. Qed.

Lemma valid_div_scalar (a : ndarray E) s : valid a → valid (div_scalar a s).
Proof. unfold valid, div_scalar; simpl. by rewrite length_fmap. Qed.

Lemma valid_mul_scalar (a : ndarray E) s : valid a → valid (mul_scalar a s).
Proof. unfold valid, mul_scalar; simpl. by rewrite length_fmap. Qed.

Lemma sub_index_in_bounds sel sh sh' idx :
  sub_shape sel sh = Some sh' → Forall2 lt idx sh' →
  Forall2 lt (sub_index sel idx) sh.
Proof.
  revert sh sh' idx. induction sel as [|[|i] sel IH]; intros sh sh' idx Hs Hb; simpl in *.
  - by injection Hs as ->.
  - destruct sh as [|n sh]; [done|].
    destruct (sub_shape sel sh) as [sh0|] eqn:Hs0; [|done]. injection Hs as <-.
    inversion Hb; subst. constructor; eauto.
  - destruct sh as [|n sh]; [done|]. case_decide; [|done].
    constructor; eauto.
Qed.

(** Indexing reads the element at the position the selectors denote. *)
Lemma subscript_get (a r : ndarray E) sel idx :
  subscript a sel = Ok r → Forall2 lt idx (shape r) →
  get r idx = get a (sub_index sel idx).
Proof.
  unfold subscript. intros H Hb.
  destruct (sub_shape sel (shape a)) as [sh|] eqn:Hs; [|done]. simpl in H.
  destruct (gather sh _) as [d|] eqn:Hd; [|done]. simpl in H.
  injection H as <-. simpl in *.
  apply offset_is_Some in Hb as [o Ho]. unfold get at 1. simpl. rewrite Ho. simpl.
  by rewrite (gather_lookup _ _ _ _ _ Hd Ho).
Qed.

(** Indexing a well-formed array inside its shape succeeds. *)
Lemma subscript_Ok (a : ndarray E) sel sh :
  valid a → sub_shape sel (shape a) = Some sh →
  ∃ r, subscript a sel = Ok r ∧ shape r = sh ∧ arr_dtype r = arr_dtype a ∧ valid r.
Proof.
  intros Hv Hs. unfold subscript. rewrite Hs. simpl.
  destruct (gather_is_Some sh (λ idx, get a (sub_index sel idx))) as [d Hd].
  { intros idx Hidx. apply get_is_Some; [done|].
    eapply sub_index_in_bounds; [done|]. by apply offset_is_Some, indices_offset. }
  rewrite Hd. simpl. eexists. split; [done|]. repeat split.
  unfold valid. simpl. by eapply gather_length.
Qed.

Lemma multiply_get (a b r : ndarray E) idx :
  multiply a b = Ok r → Forall2 lt idx (shape r) →
  get r idx = (x ← get a (operand_index (shape a) idx);
               y ← get b (operand_index (shape b) idx);
               Some (num_mul x y)).
Proof.
  unfold multiply. intros H Hb.
  destruct (broadcast_shapes _ _) as [sh|]; [|done]. simpl in H.
  destruct (gather sh _) as [d|] eqn:Hd; [|done]. simpl in H.
  injection H as <-. simpl in *.
  apply offset_is_Some in Hb as [o Ho]. unfold get at 1. simpl. rewrite Ho. simpl.
  by rewrite (gather_lookup _ _ _ _ _ Hd Ho).
Qed.

Lemma multiply_valid (a b r : ndarray E) : multiply a b = Ok r → valid r.
Proof.
  unfold multiply. intros H.
  destruct (broadcast_shapes _ _) as [sh|]; [|done]. simpl in H.
  destruct (gather sh _) as [d|] eqn:Hd; [|done]. simpl in H.
  injection H as <-. unfold valid. simpl. by eapply gather_length.
Qed.

End ops.

End NDArrayFacts.

(** ** Facts on the program *)

Module ReconFacts.
Import NDArray NDArrayFacts Recon.

Section logic.
Context {E : Type} `{!Numeric E}.
Local Abbreviation M := (Recon.M (E := E)).
Local Abbreviation state := (Recon.state (E := E)).
Local Abbreviation event := (Recon.event (E := E)).

Lemma wp_bind {A B} (m : M A) (k : A → M B) Q s :
  wp m (λ r s1, match r with
                | Ok a => wp (k a) Q s1
                | Raise e => Q (Raise e) s1
                end) s →
  wp (m ≫= k) Q s.
Proof.
  unfold wp, mbind, M_bind. by destruct (m s) as [[a|e] s1].
Qed.

Lemma wp_mono {A} (m : M A) (Q Q' : result A → state → Prop) s :
  wp m Q' s → (∀ r s', Q' r s' → Q r s') → wp m Q s.
Proof. unfold wp. auto. Qed.

Lemma wp_ret {A} (a : A) (Q : result A → state → Prop) s : Q (Ok a) s → wp (mret a) Q s.
Proof. done. Qed.

Lemma wp_lift {A} (r : result A) (Q : result A → state → Prop) s : Q r s → wp (lift r) Q s.
Proof. done. Qed.

Lemma wp_alloc (v : ndarray E) Q s :
  Q (Ok (length (heap s))) (mk_state (heap s ++ [v]) (trace s)) → wp (alloc v) Q s.
Proof. done. Qed.

Lemma wp_read l (Q : result (ndarray E) → state → Prop) s :
  Q (of_option (ExternalError "no such object") (heap s !! l)) s → wp (read l) Q s.
Proof. done. Qed.

Lemma wp_write l (v : ndarray E) Q s :
  Q (Ok tt) (mk_state (<[l := v]> (heap s)) (trace s)) → wp (write l v) Q s.
Proof. done. Qed.

Lemma wp_emit (e : event) Q s :
  Q (Ok tt) (mk_state (heap s) (trace s ++ [e])) → wp (emit e) Q s.
Proof. done. Qed.

Lemma extends_refl X (s : state) : extends X s s.
Proof. by split. Qed.

Lemma extends_trans X (s0 s1 s2 : state) :
  extends X s0 s1 → extends X s1 s2 → extends X s0 s2.
Proof.
  intros [Hl1 H1] [Hl2 H2]. split; [lia|].
  intros l Hl HX. rewrite H2, H1; auto with lia.
Qed.

Lemma grows_refl (s : state) : grows s s.
Proof. split; [apply extends_refl|done]. Qed.

Lemma grows_lookup (s0 s : state) l v :
  grows s0 s → heap s0 !! l = Some v → heap s !! l = Some v.
Proof.
  intros [[_ H] _] Hl. rewrite H; [done| |by apply not_elem_of_nil].
  by eapply lookup_lt_Some.
Qed.

Lemma grows_alloc (s0 s : state) v :
  grows s0 s → grows s0 (mk_state (heap s ++ [v]) (trace s)).
Proof.
  intros [[Hlen H] Ht]. split; [split|done]; simpl.
  - rewrite length_app. lia.
  - intros l Hl HX. rewrite lookup_app_l by lia. auto.
Qed.

Lemma grows_write (s0 s : state) l v :
  grows s0 s → length (heap s0) ≤ l →
  grows s0 (mk_state (<[l := v]> (heap s)) (trace s)).
Proof.
  intros [[Hlen H] Ht] Hl. split; [split|done]; simpl.
  - by rewrite length_insert.
  - intros l' Hl' HX. rewrite list_lookup_insert_ne by lia. auto.
Qed.

Lemma wp_copy_obj {B} l v (k : loc → M B) Q s :
  heap s !! l = Some v →
  wp (k (length (heap s))) Q (mk_state (heap s ++ [copy v]) (trace s)) →
  wp (copy_obj l ≫= k) Q s.
Proof.
  intros Hl Hk. unfold wp, copy_obj, mbind, M_bind, read, alloc in *. simpl.
  by rewrite Hl.
Qed.

(** A routine called on two objects made after [s0] leaves [s0] alone. *)
Lemma wp_call2_fresh {T B} (f : routine2 T) a b va vb (k : T → M B) Q s0 s :
  grows s0 s → length (heap s0) ≤ a → length (heap s0) ≤ b →
  heap s !! a = Some va → heap s !! b = Some vb →
  (∀ s', grows s0 s' →
         match outcome (f va vb) with
         | Ok t => wp (k t) Q s'
         | Raise e => Q (Raise e) s'
         end) →
  wp (call2 f a b ≫= k) Q s.
Proof.
  intros Hg Ha Hb Hva Hvb Hk.
  unfold wp, call2, mbind, M_bind, read, write, lift in *. simpl.
  rewrite Hva, Hvb. simpl.
  specialize (Hk (mk_state (<[b := (f va vb).2]> (<[a := (f va vb).1.2]> (heap s))) (trace s))).
  unfold outcome in Hk.
  destruct (f va vb) as [[r va'] vb']. simpl in *.
  destruct r as [t|e]; apply Hk;
    (apply (grows_write _ (mk_state (<[a := va']> (heap s)) (trace s))); [|done]);
    by apply grows_write.
Qed.

End logic.

Section metrics.
Context {E : Type} `{!Numeric E} (W : world (E := E)).
Local Abbreviation M := (Recon.M (E := E)).
Local Abbreviation state := (Recon.state (E := E)).

Lemma ssim_step_spec ref x rv xv s0 acc i s :
  heap s0 !! ref = Some rv → heap s0 !! x = Some xv → grows s0 s →
  wp (ssim_step W ref x acc i)
     (λ r s', r = (ssim_i ← per_volume_ssim W rv xv i; mret (py_add acc ssim_i))
              ∧ grows s0 s') s.
Proof.
  intros Hr Hx Hg. unfold ssim_step, per_volume_ssim.
  apply wp_bind, wp_read. rewrite (grows_lookup _ _ _ _ Hg Hr). simpl.
  apply wp_bind, wp_lift.
  destruct (subscript rv _) as [rs|e]; simpl; [|done].
  apply wp_bind, wp_alloc. simpl.
  apply wp_bind, wp_read. simpl.
  rewrite (lookup_app_l_Some _ _ _ _ (grows_lookup _ _ _ _ Hg Hx)). simpl.
  apply wp_bind, wp_lift.
  destruct (subscript xv _) as [xs|e]; simpl; [|by auto using grows_alloc].
  apply wp_bind, wp_alloc. simpl.
  destruct Hg as [[Hlen Hh] Ht].
  eapply (wp_call2_fresh _ _ _ (copy rs) (copy xs) _ _ s0); simpl.
  - split; [split|done]; simpl.
    + rewrite !length_app. lia.
    + intros l Hl HX. rewrite !lookup_app_l by (rewrite ?length_app; lia). auto.
  - lia.
  - rewrite length_app. lia.
  - rewrite lookup_app_l by (rewrite length_app; simpl; lia).
    by apply list_lookup_middle.
  - by apply list_lookup_middle.
  - intros s' Hs'. by destruct (outcome _).
Qed.

Lemma ssim_loop_spec ref x rv xv s0 l acc s :
  heap s0 !! ref = Some rv → heap s0 !! x = Some xv → grows s0 s →
  wp (foldM (ssim_step W ref x) acc l)
     (λ r s', r = foldM (λ ssim_total i,
                           ssim_i ← per_volume_ssim W rv xv i;
                           mret (py_add ssim_total ssim_i)) acc l
              ∧ grows s0 s') s.
Proof.
  intros Hr Hx. revert acc s. induction l as [|i l IH]; intros acc s Hg; simpl.
  - by apply wp_ret.
  - apply wp_bind. eapply wp_mono; [by apply (ssim_step_spec ref x rv xv s0)|].
    intros r s' [-> Hg']. simpl.
    destruct (per_volume_ssim W rv xv i) as [v|e]; simpl; [|done].
    by apply IH.
Qed.

(** [compute_metrics] computes a function of what its two arguments hold,
    and leaves every object that existed before the call as it was. *)
Lemma compute_metrics_spec ref x rv xv s :
  heap s !! ref = Some rv → heap s !! x = Some xv →
  wp (compute_metrics W ref x)
     (λ r s', r = compute_metrics_value W rv xv ∧ grows s s') s.
Proof.
  intros Hr Hx. unfold compute_metrics, compute_metrics_value.
  pose proof (lookup_lt_Some _ _ _ Hr) as Hlr.
  pose proof (lookup_lt_Some _ _ _ Hx) as Hlx.
  assert (∀ B (f : routine2 E) (k : E → M B) Q s1,
    grows s s1 →
    (∀ s', grows s s' →
           match outcome (f (copy rv) (copy xv)) with
           | Ok t => wp (k t) Q s'
           | Raise e => Q (Raise e) s'
           end) →
    wp (r ← copy_obj ref; x' ← copy_obj x; t ← call2 f r x'; k t) Q s1) as Hcall.
  { intros B f k Q s1 Hg Hk.
    apply (wp_copy_obj _ rv); [by eapply grows_lookup|].
    apply (wp_copy_obj _ xv); simpl; [by eapply lookup_app_l_Some, grows_lookup|].
    destruct Hg as [[Hlen Hh] Ht].
    eapply (wp_call2_fresh _ _ _ (copy rv) (copy xv) _ _ s); simpl; [| | | | |done].
    - split; [split|done]; simpl.
      + rewrite !length_app. lia.
      + intros l Hl HX. rewrite !lookup_app_l by (rewrite ?length_app; lia). auto.
    - lia.
    - rewrite length_app. lia.
    - rewrite lookup_app_l by (rewrite length_app; simpl; lia).
      by apply list_lookup_middle.
    - by apply list_lookup_middle. }
  apply Hcall; [apply grows_refl|]. intros s1 Hg1.
  destruct (outcome (compute_psnr W _ _)) as [p|e]; simpl; [|done].
  apply Hcall; [done|]. intros s2 Hg2.
  destruct (outcome (compute_nrmse W _ _)) as [q|e]; simpl; [|done].
  apply wp_bind, wp_read. rewrite (grows_lookup _ _ _ _ Hg2 Hr). simpl.
  apply wp_bind, wp_lift.
  destruct (shape_last rv) as [n|e] eqn:Hn; simpl; [|done].
  apply wp_bind. eapply wp_mono; [by apply (ssim_loop_spec ref x rv xv s)|].
  intros r s3 [-> Hg3]. simpl.
  destruct (foldM _ _ _) as [ssim_total|e]; simpl; [|done].
  apply wp_bind, wp_read. rewrite (grows_lookup _ _ _ _ Hg3 Hr). simpl.
  apply wp_bind, wp_lift. rewrite Hn. simpl.
  apply wp_bind, wp_lift.
  destruct (py_truediv ssim_total n) as [v|e]; simpl; [|done].
  by apply wp_ret.
Qed.

Lemma ssim_fold_Ok (g : nat → result E) (f : nat → E) l acc :
  (∀ i, i ∈ l → g i = Ok (f i)) →
  foldM (λ ssim_total i, ssim_i ← g i; mret (py_add ssim_total ssim_i)) acc l
  = Ok (foldl py_add acc (f <$> l)).
Proof.
  revert acc. induction l as [|i l IH]; intros acc Hg; simpl; [done|].
  rewrite (Hg i) by left. simpl. apply IH. intros j Hj. apply Hg. by right.
Qed.

Lemma foldl_py_add_num (e : E) l :
  foldl py_add (PyNum e) l = PyNum (foldl num_add e l).
Proof. revert e. induction l as [|v l IH]; intros e; simpl; [done|]. apply IH. Qed.

(** Starting from the integer [0], the running total of a non-empty list
    is the float sum [0 + v0 + v1 + ...]. *)
Lemma foldl_py_add_int (v : E) l :
  foldl py_add (PyInt 0) (v :: l) = PyNum (foldl num_add (num_of_Z 0) (v :: l)).
Proof. simpl. apply foldl_py_add_num. Qed.

(** C7. [compute_metrics] leaves both of its argument arrays unchanged:
    every routine of [utils.metrics] is handed fresh copies, so whatever
    those routines write, after the call (returned or raised) the reference
    and the candidate hold what they held before, element for element. *)
Theorem compute_metrics_preserves_arguments ref x rv xv s :
  heap s !! ref = Some rv → heap s !! x = Some xv →
  heap (compute_metrics W ref x s).2 !! ref = Some rv ∧
  heap (compute_metrics W ref x s).2 !! x = Some xv ∧
  ∀ idx, get rv idx = (r ← heap (compute_metrics W ref x s).2 !! ref; get r idx) ∧
         get xv idx = (c ← heap (compute_metrics W ref x s).2 !! x; get c idx).
Proof.
  intros Hr Hx. destruct (compute_metrics_spec ref x rv xv s Hr Hx) as [_ Hg].
  pose proof (grows_lookup _ _ _ _ Hg Hr) as Hr'.
  pose proof (grows_lookup _ _ _ _ Hg Hx) as Hx'.
  repeat split; [done|done|by rewrite Hr'|by rewrite Hx'].
Qed.

(** C4. For 4-D arrays with a non-zero last extent [n], the [ssim] entry
    returned by [compute_metrics] is the arithmetic mean over [i < n] of the
    SSIM of the pair of volumes [(ref[:,:,:,i], x[:,:,:,i])], computed with
    [sos_axis=0]. *)
Theorem compute_metrics_ssim_is_mean ref x rv xv s a b c n p q (f : nat → E) :
  heap s !! ref = Some rv → heap s !! x = Some xv →
  shape rv = [a; b; c; n] → shape xv = [a; b; c; n] → n ≠ 0 →
  outcome (compute_psnr W (copy rv) (copy xv)) = Ok p →
  outcome (compute_nrmse W (copy rv) (copy xv)) = Ok q →
  (∀ i, i < n → per_volume_ssim W rv xv i = Ok (f i)) →
  (compute_metrics W ref x s).1
  = Ok (mk_metrics p q (PyNum (arithmetic_mean (f <$> seq 0 n)))).
Proof.
  intros Hr Hx Hsh _ Hn Hp Hq Hf.
  destruct (compute_metrics_spec ref x rv xv s Hr Hx) as [-> _].
  unfold compute_metrics_value. rewrite Hp, Hq. simpl.
  unfold shape_last. rewrite Hsh. simpl.
  rewrite (ssim_fold_Ok _ f).
  2:{ intros i Hi. apply Hf. apply elem_of_seq in Hi. lia. }
  simpl. destruct n as [|n]; [done|].
  rewrite <- cons_seq, fmap_cons, foldl_py_add_int. simpl.
  unfold arithmetic_mean. simpl. by rewrite length_fmap, length_seq.
Qed.

(** C6. When the last extent of the reference is zero the loop body never
    runs, the total is still the integer 0, and [0 / 0] raises
    [ZeroDivisionError]; nothing in [compute_metrics] catches it. *)
Theorem compute_metrics_zero_extent ref x rv xv s p q :
  heap s !! ref = Some rv → heap s !! x = Some xv →
  last (shape rv) = Some 0 →
  outcome (compute_psnr W (copy rv) (copy xv)) = Ok p →
  outcome (compute_nrmse W (copy rv) (copy xv)) = Ok q →
  (compute_metrics W ref x s).1 = Raise ZeroDivisionError.
Proof.
  intros Hr Hx Hn Hp Hq.
  destruct (compute_metrics_spec ref x rv xv s Hr Hx) as [-> _].
  unfold compute_metrics_value. rewrite Hp, Hq. simpl.
  unfold shape_last. by rewrite Hn.
Qed.

End metrics.

Section views.
Context {E : Type} `{!Numeric E}.
Local Abbreviation M := (Recon.M (E := E)).
Local Abbreviation state := (Recon.state (E := E)).
#[local] Arguments Nat.div : simpl never.

Lemma amax_Ok (a : ndarray E) :
  valid a → 0 < size (shape a) → ∃ m, amax a = Ok m.
Proof.
  unfold valid, amax. intros Hv Hs. destruct (data a) as [|x l]; simpl in *; [lia|].
  by eexists.
Qed.

Lemma get_view_pixel (image v : ndarray E) m sel idx :
  subscript (mul_scalar (div_scalar image (num_mul m num_0_9)) (num_of_Z 255)) sel
  = Ok v →
  Forall2 lt idx (shape v) →
  get (astype UInt8 v) idx = view_pixel m <$> get image (sub_index sel idx).
Proof.
  intros Hv Hidx. rewrite get_astype, (subscript_get _ _ _ _ Hv Hidx).
  rewrite get_mul_scalar, get_div_scalar.
  by destruct (get image _).
Qed.

(** [write_views_png] on a volume with no empty axis completes, and writes
    the three middle slices of the scaled volume. *)
Lemma write_views_png_runs filebase (image : ndarray E) a b c (s : state) :
  valid image → shape image = [a; b; c] → 0 < a → 0 < b → 0 < c →
  ∃ m v0 v1 v2,
    amax (absolute image) = Ok m ∧
    subscript (mul_scalar (div_scalar image (num_mul m num_0_9)) (num_of_Z 255))
              [At (a / 2); Slice; Slice] = Ok v0 ∧ shape v0 = [b; c] ∧
    subscript (mul_scalar (div_scalar image (num_mul m num_0_9)) (num_of_Z 255))
              [Slice; At (b / 2); Slice] = Ok v1 ∧ shape v1 = [a; c] ∧
    subscript (mul_scalar (div_scalar image (num_mul m num_0_9)) (num_of_Z 255))
              [Slice; Slice; At (c / 2)] = Ok v2 ∧ shape v2 = [a; b] ∧
    write_views_png filebase image s
    = (Ok tt, mk_state (heap s)
                (trace s ++ [ImWrite (filebase +:+ "_sag.png") (astype UInt8 v0);
                             ImWrite (filebase +:+ "_cor.png") (astype UInt8 v1);
                             ImWrite (filebase +:+ "_ax.png") (astype UInt8 v2)])).
Proof.
  intros Hv Hsh Ha Hb Hc.
  destruct (amax_Ok (absolute image)) as [m Hm].
  { unfold valid, absolute. simpl. by rewrite length_fmap. }
  { unfold absolute. simpl. rewrite Hsh. simpl. nia. }
  set (image_out := mul_scalar (div_scalar image (num_mul m num_0_9)) (num_of_Z 255)).
  assert (valid image_out) as Hvo by by apply valid_mul_scalar, valid_div_scalar.
  assert (shape image_out = [a; b; c]) as Hso by done.
  assert (a / 2 < a) as Ha2 by (apply Nat.div_lt; lia).
  assert (b / 2 < b) as Hb2 by (apply Nat.div_lt; lia).
  assert (c / 2 < c) as Hc2 by (apply Nat.div_lt; lia).
  destruct (subscript_Ok image_out [At (a / 2); Slice; Slice] [b; c] Hvo)
    as (v0 & Hv0 & Hs0 & _ & _).
  { rewrite Hso. simpl. by rewrite decide_True. }
  destruct (subscript_Ok image_out [Slice; At (b / 2); Slice] [a; c] Hvo)
    as (v1 & Hv1 & Hs1 & _ & _).
  { rewrite Hso. simpl. by rewrite decide_True. }
  destruct (subscript_Ok image_out [Slice; Slice; At (c / 2)] [a; b] Hvo)
    as (v2 & Hv2 & Hs2 & _ & _).
  { rewrite Hso. simpl. by rewrite decide_True. }
  exists m, v0, v1, v2. repeat (split; [done|]).
  unfold write_views_png, mbind, M_bind, lift, imwrite, emit. rewrite Hm.
  fold image_out. unfold shape_at. rewrite Hso. simpl.
  rewrite Hv0, Hv1, Hv2. simpl. by rewrite <- !app_assoc.
Qed.

(** C8, as the code has it.  For a real-valued 3-D volume with no empty
    axis, [write_views_png] writes exactly three image files, named by the
    shared prefix followed by [_sag.png], [_cor.png] and [_ax.png]; the
    slices are taken at the middle index (extent [// 2]) of axis 0, 1 and 2;
    and every pixel is the value of the volume divided by 0.9 times the
    maximum absolute value, times 255, converted to [uint8]. *)
Theorem write_views_png_views filebase (image : ndarray E) a b c (s : state) :
  valid image → shape image = [a; b; c] → 0 < a → 0 < b → 0 < c →
  ∃ m sag cor ax,
    amax (absolute image) = Ok m ∧
    write_views_png filebase image s
    = (Ok tt, mk_state (heap s)
                (trace s ++ [ImWrite (filebase +:+ "_sag.png") sag;
                             ImWrite (filebase +:+ "_cor.png") cor;
                             ImWrite (filebase +:+ "_ax.png") ax])) ∧
    (arr_dtype sag = UInt8 ∧ shape sag = [b; c] ∧
     ∀ j k, j < b → k < c →
       get sag [j; k] = view_pixel m <$> get image [a / 2; j; k]) ∧
    (arr_dtype cor = UInt8 ∧ shape cor = [a; c] ∧
     ∀ i k, i < a → k < c →
       get cor [i; k] = view_pixel m <$> get image [i; b / 2; k]) ∧
    (arr_dtype ax = UInt8 ∧ shape ax = [a; b] ∧
     ∀ i j, i < a → j < b →
       get ax [i; j] = view_pixel m <$> get image [i; j; c / 2]).
Proof.
  intros Hv Hsh Ha Hb Hc.
  destruct (write_views_png_runs filebase image a b c s Hv Hsh Ha Hb Hc)
    as (m & v0 & v1 & v2 & Hm & Hv0 & Hs0 & Hv1 & Hs1 & Hv2 & Hs2 & Hrun).
  exists m, (astype UInt8 v0), (astype UInt8 v1), (astype UInt8 v2).
  split; [done|]. split; [done|].
  repeat split; simpl; try done.
  - intros j k Hj Hk. apply (get_view_pixel _ _ _ _ [j; k] Hv0).
    rewrite Hs0. by repeat constructor.
  - intros i k Hi Hk. apply (get_view_pixel _ _ _ _ [i; k] Hv1).
    rewrite Hs1. by repeat constructor.
  - intros i j Hi Hj. apply (get_view_pixel _ _ _ _ [i; j] Hv2).
    rewrite Hs2. by repeat constructor.
Qed.

(** Every element of a slice is an element of the array. *)
Lemma subscript_elem_of (a v : ndarray E) sel x :
  subscript a sel = Ok v → x ∈ data v → x ∈ data a.
Proof.
  unfold subscript. intros H Hx.
  destruct (sub_shape sel (shape a)) as [sh|]; [|done]. simpl in H.
  destruct (gather sh _) as [d|] eqn:Hd; [|done]. simpl in H.
  injection H as <-. simpl in Hx.
  unfold gather in Hd. apply mapM_Some in Hd.
  apply list_elem_of_lookup in Hx as [i Hi].
  destruct (Forall2_lookup_r _ _ _ _ _ Hd Hi) as (idx & _ & Hg).
  unfold get in Hg. destruct (offset _ _) as [o|]; [|done]. simpl in Hg.
  apply list_elem_of_lookup. eauto.
Qed.

(** C9. On an all-zero volume (with no empty axis) the division by
    [0.9 * max(|image|)] is the array division of numpy, which does not
    raise: the call completes, writes its three files, and every pixel
    written is the conversion to [uint8] of [0 / (m * 0.9) * 255] for the
    maximum [m] of the volume. *)
Theorem write_views_png_all_zero filebase (image : ndarray E) a b c (s : state) :
  valid image → shape image = [a; b; c] → 0 < a → 0 < b → 0 < c →
  Forall (λ v, v = num_of_Z 0) (data image) →
  ∃ m sag cor ax,
    amax (absolute image) = Ok m ∧
    write_views_png filebase image s
    = (Ok tt, mk_state (heap s)
                (trace s ++ [ImWrite (filebase +:+ "_sag.png") sag;
                             ImWrite (filebase +:+ "_cor.png") cor;
                             ImWrite (filebase +:+ "_ax.png") ax])) ∧
    Forall (λ p, p = view_pixel m (num_of_Z 0)) (data sag ++ data cor ++ data ax).
Proof.
  intros Hv Hsh Ha Hb Hc Hzero.
  destruct (write_views_png_runs filebase image a b c s Hv Hsh Ha Hb Hc)
    as (m & v0 & v1 & v2 & Hm & Hv0 & Hs0 & Hv1 & Hs1 & Hv2 & Hs2 & Hrun).
  exists m, (astype UInt8 v0), (astype UInt8 v1), (astype UInt8 v2).
  split; [done|]. split; [done|].
  assert (∀ v sel x,
            subscript (mul_scalar (div_scalar image (num_mul m num_0_9)) (num_of_Z 255))
                      sel = Ok v →
            x ∈ data (astype UInt8 v) → x = view_pixel m (num_of_Z 0)) as Hpix.
  { intros v sel x Hsub Hx. simpl in Hx.
    apply list_elem_of_fmap in Hx as (y & -> & Hy).
    apply (subscript_elem_of _ _ _ _ Hsub) in Hy. simpl in Hy.
    apply list_elem_of_fmap in Hy as (u & -> & Hu).
    apply list_elem_of_fmap in Hu as (w & -> & Hw).
    rewrite Forall_forall in Hzero. by rewrite (Hzero w Hw). }
  rewrite !Forall_app. repeat split; apply Forall_forall; intros x Hx; eauto.
Qed.

End views.

Section paths.

Lemma string_length_app (a b : string) :
  String.length (a +:+ b) = String.length a + String.length b.
Proof. induction a as [|c a IH]; simpl; [done|]. by f_equal. Qed.

Lemma string_app_assoc (a b c : string) : (a +:+ b) +:+ c = a +:+ b +:+ c.
Proof.
  induction a as [|x a IH]; [done|].
  change (String x ((a +:+ b) +:+ c) = String x (a +:+ b +:+ c)). by f_equal.
Qed.

Lemma string_app_inj_r (a b s : string) : a +:+ s = b +:+ s → a = b.
Proof.
  revert b. induction a as [|x a IH]; intros [|y b] H.
  - done.
  - apply (f_equal String.length) in H.
    rewrite !string_length_app in H. simpl in H. lia.
  - apply (f_equal String.length) in H.
    rewrite !string_length_app in H. simpl in H. lia.
  - change (String x (a +:+ s) = String y (b +:+ s)) in H.
    injection H as -> H. f_equal. by apply IH.
Qed.

Lemma has_suffix_app suf a b :
  has_suffix suf b = true → has_suffix suf (a +:+ b) = true.
Proof.
  intros Hb. induction a as [|c a IH]; [done|].
  change (has_suffix suf (String c (a +:+ b)) = true). simpl.
  case_decide; [done|apply IH].
Qed.

Lemma has_suffix_app_inv suf a b :
  String.length suf ≤ String.length b →
  has_suffix suf (a +:+ b) = true → has_suffix suf b = true.
Proof.
  intros Hlen. induction a as [|c a IH]; [done|].
  change (has_suffix suf (String c (a +:+ b)) = true → has_suffix suf b = true).
  simpl. case_decide as Heq; [|done]. intros _.
  apply (f_equal String.length) in Heq.
  change (String.length suf = S (String.length (a +:+ b))) in Heq.
  rewrite string_length_app in Heq. lia.
Qed.

(** What [os.path.join] puts before a relative name. *)
Lemma path_join_relative a :
  ∃ pre, ∀ b, is_absolute b = false → path_join a b = pre +:+ b.
Proof.
  unfold path_join. destruct (decide (a = "")) as [->|Ha].
  - exists "". intros b ->. done.
  - destruct (ends_with_sep a) eqn:Hsep.
    + exists a. by intros b ->.
    + exists (a +:+ "/"). intros b ->. by rewrite string_app_assoc.
Qed.

Lemma path_join_inj a b1 b2 :
  is_absolute b1 = false → is_absolute b2 = false →
  path_join a b1 = path_join a b2 → b1 = b2.
Proof.
  intros H1 H2. destruct (path_join_relative a) as [pre Hpre].
  rewrite (Hpre _ H1), (Hpre _ H2). apply String.app_inj.
Qed.

Lemma path_join_suffix suf a b :
  is_absolute b = false → String.length suf ≤ String.length b →
  has_suffix suf (path_join a b) = has_suffix suf b.
Proof.
  intros Hb Hlen. destruct (path_join_relative a) as [pre Hpre].
  rewrite (Hpre _ Hb). destruct (has_suffix suf b) eqn:Hs.
  - by apply has_suffix_app.
  - destruct (has_suffix suf (pre +:+ b)) eqn:Hs'; [|done].
    apply has_suffix_app_inv in Hs'; [congruence|done].
Qed.

Lemma model_file_relative m : is_absolute (("kspace_" +:+ m) +:+ ".npy") = false.
Proof. done. Qed.

(** The files of the models are distinct from [sensemap.npy], and from
    [kspace_input.npy] unless the model is named [input]. *)
Lemma model_file_not_sensemap a m : model_file a m ≠ sensemap_file a.
Proof.
  unfold model_file, sensemap_file. intros H.
  apply path_join_inj in H; [|done..]. discriminate H.
Qed.

Lemma model_file_input a m : model_file a m = input_file a → m = "input".
Proof.
  unfold model_file, input_file. intros H.
  apply path_join_inj in H; [|done..]. simpl in H.
  injection H as H. by apply (string_app_inj_r _ "input" ".npy").
Qed.

Lemma sensemap_file_not_input a : sensemap_file a ≠ input_file a.
Proof.
  unfold sensemap_file, input_file. intros H.
  apply path_join_inj in H; [|done..]. discriminate H.
Qed.

Lemma npy_png_disjoint name :
  has_suffix ".npy" name = true → has_suffix ".png" name = true → False.
Proof.
  induction name as [|c name IH]; simpl; [done|]. intros Hn Hp.
  destruct (decide (".npy" = String c name)) as [E1|_];
    destruct (decide (".png" = String c name)) as [E2|_].
  - rewrite <- E2 in E1. discriminate E1.
  - injection E1 as <- <-. vm_compute in Hp. done.
  - injection E2 as <- <-. vm_compute in Hn. done.
  - auto.
Qed.

(** An image file is none of the array files. *)
Lemma png_not_npy a name p :
  has_suffix ".npy" name = true → is_absolute name = false →
  4 ≤ String.length name →
  has_suffix ".png" p = true → p ≠ path_join a name.
Proof.
  intros Hn Hrel Hlen Hp ->.
  rewrite path_join_suffix in Hp by done.
  by eapply npy_png_disjoint.
Qed.

End paths.

Section script.
Context {E : Type} `{!Numeric E} (W : world (E := E)).
Local Abbreviation M := (Recon.M (E := E)).
Local Abbreviation state := (Recon.state (E := E)).
Local Abbreviation event := (Recon.event (E := E)).
#[local] Arguments Nat.div : simpl never.

Implicit Types (X : list loc) (cx : loop_ctx (E := E)) (s : state).

Lemma copy_id (a : ndarray E) : copy a = a.
Proof. by destruct a. Qed.

Lemma event_ok_mono cx n n' (e : event) :
  n ≤ n' → event_ok cx n' e → event_ok cx n e.
Proof. intros Hn. destruct e; simpl; intros; intuition lia. Qed.

Lemma evolves_refl X cx s : evolves X cx s s.
Proof. split; [apply extends_refl|]. exists []. by rewrite app_nil_r. Qed.

Lemma evolves_trans X cx s0 s1 s2 :
  evolves X cx s0 s1 → evolves X cx s1 s2 → evolves X cx s0 s2.
Proof.
  intros [He1 (n1 & Ht1 & Hn1)] [He2 (n2 & Ht2 & Hn2)].
  split; [by eapply extends_trans|].
  exists (n1 ++ n2). split; [by rewrite Ht2, Ht1, app_assoc|].
  apply Forall_app. split; [done|].
  eapply Forall_impl; [done|]. intros e. apply event_ok_mono. apply He1.
Qed.

Lemma grows_evolves X cx s0 s : grows s0 s → evolves X cx s0 s.
Proof.
  intros [[Hl Hh] Ht]. split.
  - split; [done|]. intros l Hlt _. apply Hh; [done|apply not_elem_of_nil].
  - exists []. by rewrite app_nil_r.
Qed.

Lemma evolves_alloc X cx s0 s v :
  evolves X cx s0 s → evolves X cx s0 (mk_state (heap s ++ [v]) (trace s)).
Proof.
  intros [[Hl Hh] Ht]. split; [split|done]; simpl.
  - rewrite length_app. lia.
  - intros l Hlt HX. rewrite lookup_app_l by lia. auto.
Qed.

Lemma evolves_write X cx s0 s l v :
  evolves X cx s0 s → length (heap s0) ≤ l ∨ l ∈ X →
  evolves X cx s0 (mk_state (<[l := v]> (heap s)) (trace s)).
Proof.
  intros [[Hl Hh] Ht] Hw. split; [split|done]; simpl.
  - by rewrite length_insert.
  - intros l' Hlt HX. rewrite list_lookup_insert_ne; [auto|].
    intros ->. destruct Hw; [lia|done].
Qed.

Lemma evolves_emit X cx s0 s (e : event) :
  evolves X cx s0 s → event_ok cx (length (heap s0)) e →
  evolves X cx s0 (mk_state (heap s) (trace s ++ [e])).
Proof.
  intros [He (new & Ht & Hn)] Hok. split; [done|]. simpl.
  exists (new ++ [e]). split; [by rewrite Ht, app_assoc|].
  apply Forall_app. split; [done|]. by constructor.
Qed.

Lemma evolves_lookup X cx s0 s l v :
  evolves X cx s0 s → heap s0 !! l = Some v → l ∉ X → heap s !! l = Some v.
Proof.
  intros [[_ Hh] _] Hl HX. rewrite Hh; [done| |done]. by eapply lookup_lt_Some.
Qed.

Lemma evolves_length X cx s0 s :
  evolves X cx s0 s → length (heap s0) ≤ length (heap s).
Proof. by intros [[? _] _]. Qed.

(** A routine called on objects that are new or in [X]. *)
Lemma wp_call2_evolves {T B} (f : routine2 T) a b (k : T → M B) Q X cx s0 s :
  evolves X cx s0 s →
  length (heap s0) ≤ a ∨ a ∈ X → length (heap s0) ≤ b ∨ b ∈ X →
  (∀ s' r, evolves X cx s0 s' →
           match r with
           | Ok t => wp (k t) Q s'
           | Raise e => Q (Raise e) s'
           end) →
  (∀ e, Q (Raise e) s) →
  wp (call2 f a b ≫= k) Q s.
Proof.
  intros Hev Ha Hb Hk HQ.
  unfold wp, call2, mbind, M_bind, read, write, lift in *. simpl.
  destruct (heap s !! a) as [va|]; simpl; [|apply HQ].
  destruct (heap s !! b) as [vb|]; simpl; [|apply HQ].
  destruct (f va vb) as [[r va'] vb']. simpl.
  specialize (Hk (mk_state (<[b := vb']> (<[a := va']> (heap s))) (trace s)) r).
  destruct r as [t|e]; apply Hk;
    (apply (evolves_write _ _ _ (mk_state (<[a := va']> (heap s)) (trace s)));
     [|done]); by apply evolves_write.
Qed.

(** [write_views_png] writes image files only. *)
Lemma write_views_png_evolves filebase image X cx s0 s :
  evolves X cx s0 s →
  wp (write_views_png filebase image) (λ _ s', evolves X cx s0 s') s.
Proof.
  intros Hev. unfold write_views_png, imwrite.
  apply wp_bind, wp_lift. destruct (amax _) as [m|]; simpl; [|done].
  apply wp_bind, wp_lift. destruct (shape_at _ 0) as [s0'|]; simpl; [|done].
  apply wp_bind, wp_lift. destruct (subscript _ _) as [v0|]; simpl; [|done].
  apply wp_bind, wp_emit. simpl.
  pose proof (evolves_emit _ _ _ _ (ImWrite (filebase +:+ "_sag.png") (astype UInt8 v0))
                Hev (has_suffix_app ".png" filebase "_sag.png" eq_refl)) as Hev1.
  apply wp_bind, wp_lift. destruct (shape_at _ 1) as [s1'|]; simpl; [|done].
  apply wp_bind, wp_lift. destruct (subscript _ _) as [v1|]; simpl; [|done].
  apply wp_bind, wp_emit. simpl.
  pose proof (evolves_emit _ _ _ _ (ImWrite (filebase +:+ "_cor.png") (astype UInt8 v1))
                Hev1 (has_suffix_app ".png" filebase "_cor.png" eq_refl)) as Hev2.
  apply wp_bind, wp_lift. destruct (shape_at _ 2) as [s2'|]; simpl; [|done].
  apply wp_bind, wp_lift. destruct (subscript _ _) as [v2|]; simpl; [|done].
  apply wp_emit.
  exact (evolves_emit _ _ _ _ (ImWrite (filebase +:+ "_ax.png") (astype UInt8 v2))
           Hev2 (has_suffix_app ".png" filebase "_ax.png" eq_refl)).
Qed.

Lemma show_plot_evolves title image X cx s0 s :
  evolves X cx s0 s →
  wp (show_plot title image) (λ _ s', evolves X cx s0 s') s.
Proof.
  intros Hev. unfold show_plot.
  apply wp_bind, wp_lift. destruct (shape_at _ 0) as [s0'|]; simpl; [|done].
  apply wp_bind, wp_lift. destruct (subscript _ _) as [v0|]; simpl; [|done].
  apply wp_emit. by eapply (evolves_emit _ _ _ _ (PyplotShow _ _)) in Hev.
Qed.

Lemma when_plot_evolves b title image X cx s0 s :
  evolves X cx s0 s →
  wp (when b (show_plot title image)) (λ _ s', evolves X cx s0 s') s.
Proof. destruct b; simpl; [apply show_plot_evolves|by intros; apply wp_ret]. Qed.

Lemma np_save_fresh path (v : ndarray E) X cx s0 s :
  evolves X cx s0 s →
  (truthy (arg_sensemap (cx_args cx)) = None ∧ path = sensemap_file (cx_args cx)) ∨
  (∃ m, m ∈ cx_models cx ∧ path = model_file (cx_args cx) m) →
  wp (np_save path (length (heap s)))
     (λ r s', r = Ok tt ∧ s' = mk_state (heap s ++ [v])
                (trace s ++ [NpSave path (length (heap s)) v]) ∧
              evolves X cx s0 s')
     (mk_state (heap s ++ [v]) (trace s)).
Proof.
  intros Hev Hpath. unfold wp, np_save, mbind, M_bind, read, emit. simpl.
  rewrite list_lookup_middle by done. simpl. split; [done|]. split; [done|].
  apply (evolves_emit _ _ _ (mk_state (heap s ++ [v]) (trace s))).
  - by apply evolves_alloc.
  - simpl. split; [by eapply evolves_length|done].
Qed.

(** One iteration of the model loop: the model works on a new copy of the
    input k-space and on the sensitivity maps themselves. *)
Lemma run_model_spec a nc z y lvl l_in l_s l_t name model_list ki tv s0 s :
  let cx := Build_loop_ctx a model_list ki l_s in
  evolves [l_s] cx s0 s →
  heap s0 !! l_in = Some ki → l_in ≠ l_s →
  heap s0 !! l_t = Some tv → l_t ≠ l_s →
  name ∈ model_list →
  wp (run_model W a nc z y lvl l_in l_s l_t name)
     (λ _ s', evolves [l_s] cx s0 s') s.
Proof.
  intros cx Hev Hin Hne Ht Hnt Hname. unfold run_model.
  assert (l_in ∉ [l_s]) as Hin'
    by (apply not_elem_of_cons; split; [done|apply not_elem_of_nil]).
  assert (l_t ∉ [l_s]) as Ht'
    by (apply not_elem_of_cons; split; [done|apply not_elem_of_nil]).
  apply wp_bind, wp_lift. destruct (DeepRecon _ _ _ _ _ _ _) as [model|]; simpl; [|done].
  apply (wp_copy_obj _ ki); [by eapply evolves_lookup|].
  apply wp_bind, wp_read. simpl. rewrite list_lookup_middle by done. simpl.
  apply wp_bind, wp_read. simpl.
  pose proof (evolves_alloc _ _ _ _ (copy ki) Hev) as Hev1.
  destruct ((heap s ++ [copy ki]) !! l_s) as [vs|]; simpl; [|done].
  apply wp_bind, wp_emit. simpl.
  eapply (evolves_emit _ _ _ _ (Call _ (length (heap s)) l_s (copy ki) vs)) in Hev1.
  2:{ simpl. split; [by eapply evolves_length|]. split; [done|apply copy_id]. }
  eapply wp_call2_evolves; [exact Hev1| | | |done].
  { left. by eapply evolves_length. }
  { right. by left. }
  clear Hev Hev1. intros s1 r Hev. destruct r as [kspace_output|]; [|done].
  apply wp_bind, wp_alloc.
  apply wp_bind. eapply wp_mono.
  { apply np_save_fresh; [exact Hev|]. right. by exists name. }
  simpl. intros r s2 (-> & -> & Hev2). clear Hev.
  apply wp_bind, wp_read. simpl. rewrite list_lookup_middle by done. simpl.
  apply wp_bind, wp_lift. destruct (ifft3c _ _) as [image_output|]; simpl; [|done].
  apply wp_bind, wp_alloc. simpl.
  apply wp_bind. eapply wp_mono.
  { apply (compute_metrics_spec W _ _ tv image_output); simpl.
    - apply lookup_app_l_Some. by eapply (evolves_lookup _ _ _ _ _ _ Hev2).
    - by apply list_lookup_middle. }
  intros r s3 [_ Hg]. simpl.
  eapply (evolves_alloc _ _ _ _ image_output) in Hev2.
  pose proof (evolves_trans _ _ _ _ _ Hev2 (grows_evolves _ _ _ _ Hg)) as Hev3.
  destruct r as [results|]; [|done].
  apply wp_bind, wp_read.
  destruct (heap s3 !! _) as [io|]; simpl; [|done].
  apply wp_bind, wp_lift. destruct (sumofsq _ _ _) as [image_output_sos|]; simpl; [|done].
  apply wp_bind. eapply wp_mono; [by apply write_views_png_evolves|].
  intros r s4 Hev4. destruct r; [|done].
  by apply when_plot_evolves.
Qed.

Lemma model_loop_spec a nc z y lvl l_in l_s l_t model_list names ki tv s0 s :
  let cx := Build_loop_ctx a names ki l_s in
  evolves [l_s] cx s0 s →
  heap s0 !! l_in = Some ki → l_in ≠ l_s →
  heap s0 !! l_t = Some tv → l_t ≠ l_s →
  (∀ name, name ∈ model_list → name ∈ names) →
  wp (model_loop W a nc z y lvl l_in l_s l_t model_list)
     (λ _ s', evolves [l_s] cx s0 s') s.
Proof.
  intros cx Hev Hin Hne Ht Hnt. unfold model_loop.
  generalize tt. revert s Hev.
  induction model_list as [|name model_list IH]; intros s Hev u Hsub; simpl.
  - by apply wp_ret.
  - apply wp_bind. eapply wp_mono.
    { eapply (run_model_spec a nc z y lvl l_in l_s l_t name names ki tv);
        [exact Hev|done..|]. apply Hsub. by left. }
    intros r s1 Hev1. destruct r; [|done]. apply IH; [done|].
    intros m Hm. apply Hsub. by right.
Qed.

Lemma calls_event_ok cx n (new : list event) :
  Forall (event_ok cx n) new →
  Forall (λ '(name, k, ls, vk, vs),
            n ≤ k ∧ ls = cx_sensemap cx ∧ vk = cx_kspace cx) (calls new).
Proof.
  induction 1 as [|e new He _ IH]; [constructor|].
  destruct e; simpl in *; try done. by constructor.
Qed.

Lemma saves_event_ok cx n (new : list event) :
  Forall (event_ok cx n) new →
  Forall (λ '(path, l, v),
            n ≤ l ∧
            ((truthy (arg_sensemap (cx_args cx)) = None ∧
              path = sensemap_file (cx_args cx)) ∨
             ∃ m, m ∈ cx_models cx ∧ path = model_file (cx_args cx) m))
         (saves new).
Proof.
  induction 1 as [|e new He _ IH]; [constructor|].
  destruct e; simpl in *; try done. by constructor.
Qed.

(** C3, as the code has it.  In the model loop every call of [model.run]
    receives a new object, a copy of the input k-space, holding exactly what
    [kspace_input] holds, and [kspace_input] holds the same array after the
    loop whatever the models write into their arguments and however the
    loop ends.  The sensitivity maps are not copied: every call receives
    the shared object [l_s] itself. *)
Theorem model_loop_passes_kspace_copy a nc z y lvl l_in l_s l_t model_list ki tv s :
  heap s !! l_in = Some ki → l_in ≠ l_s →
  heap s !! l_t = Some tv → l_t ≠ l_s →
  heap (model_loop W a nc z y lvl l_in l_s l_t model_list s).2 !! l_in = Some ki ∧
  ∃ new,
    trace (model_loop W a nc z y lvl l_in l_s l_t model_list s).2 = trace s ++ new ∧
    Forall (λ '(name, k, ls, vk, vs), length (heap s) ≤ k ∧ ls = l_s ∧ vk = ki)
           (calls new).
Proof.
  intros Hin Hne Ht Hnt.
  pose proof (model_loop_spec a nc z y lvl l_in l_s l_t model_list model_list
                ki tv s s (evolves_refl _ _ _) Hin Hne Ht Hnt (λ _ H, H)) as Hev.
  unfold wp in Hev. split.
  - eapply evolves_lookup; [done..|].
    apply not_elem_of_cons; split; [done|apply not_elem_of_nil].
  - destruct Hev as [_ (new & Htr & Hnew)]. exists new. split; [done|].
    by apply calls_event_ok in Hnew.
Qed.

(** Lines 91-103 when they complete. *)
Lemma saves_setup (pre : list event) : Forall setup_event_ok pre → saves pre = [].
Proof.
  induction 1 as [|e pre He _ IH]; [done|]. by destruct e.
Qed.

(** Nothing of the setup writes an array file, and what follows the save
    of the input k-space writes [sensemap.npy] only when the maps are
    computed, and [kspace_input.npy] only for a model named [input]. *)
Lemma setup_not_npy a name (e : event) :
  has_suffix ".npy" name = true → is_absolute name = false →
  4 ≤ String.length name →
  setup_event_ok e → written_file e ≠ Some (path_join (arg_output_dir a) name).
Proof.
  intros Hn Hrel Hlen. destruct e; simpl; try done.
  intros Hp [= ->]. by eapply png_not_npy.
Qed.

Lemma event_ok_not_sensemap a names ki l_s n path (e : event) :
  truthy (arg_sensemap a) = Some path →
  event_ok (Build_loop_ctx a names ki l_s) n e →
  written_file e ≠ Some (sensemap_file a).
Proof.
  intros Hmaps. destruct e; simpl; try done.
  - intros Hp [= ->]. eapply (png_not_npy _ "sensemap.npy"); [..|done|done]; try done.
    simpl. lia.
  - intros [_ [[Hnone _]|(m & _ & ->)]] [= H]; [congruence|].
    by eapply model_file_not_sensemap.
Qed.

Lemma event_ok_not_input a names ki l_s n (e : event) :
  "input" ∉ names →
  event_ok (Build_loop_ctx a names ki l_s) n e →
  written_file e ≠ Some (input_file a).
Proof.
  intros Hno. destruct e; simpl; try done.
  - intros Hp [= ->]. eapply (png_not_npy _ "kspace_input.npy"); [..|done|done]; try done.
    simpl. lia.
  - intros [_ [[_ ->]|(m & Hm & ->)]] [= H].
    + by eapply sensemap_file_not_input.
    + apply model_file_input in H as ->. done.
Qed.

Lemma apply_mask_spec a truth z y s :
  wp (apply_mask W a truth z y)
     (λ r s', ∀ l, r = Ok l →
        ∃ mask mask' prod,
          poisson W [z; y] mask_accel [mask_calib; mask_calib] random_seed = Ok mask ∧
          reshape mask [1; z; y; 1] = Ok mask' ∧
          multiply mask' truth = Ok prod ∧
          l = length (heap s) ∧
          s' = mk_state (heap s ++ [astype Complex64 prod])
                 (trace s ++
                  [ImWrite (path_join (arg_output_dir a) "mask.png")
                     (astype UInt8 (mul_scalar (absolute mask) (num_of_Z 255)));
                   NpSave (path_join (arg_output_dir a) "kspace_input.npy")
                     (length (heap s)) (astype Complex64 prod)])) s.
Proof.
  unfold apply_mask, imwrite.
  apply wp_bind, wp_lift. destruct (poisson _ _ _ _ _) as [mask|] eqn:Hmask; simpl; [|done].
  apply wp_bind, wp_emit. simpl.
  apply wp_bind, wp_lift. destruct (reshape _ _) as [mask'|] eqn:Hmask'; simpl; [|done].
  apply wp_bind, wp_lift. destruct (multiply _ _) as [prod|] eqn:Hprod; simpl; [|done].
  apply wp_bind, wp_alloc. simpl.
  unfold wp, np_save, mbind, M_bind, read, emit, mret, M_ret. simpl.
  rewrite list_lookup_middle by done. simpl.
  intros l [= <-]. exists mask, mask', prod. repeat split; try done.
  by rewrite <- app_assoc.
Qed.

Lemma add_maps_dimension_Ok (v : ndarray E) :
  add_maps_dimension v
  = Ok (if decide (ndim v = 5) then v
        else mk_ndarray (arr_dtype v) (1 :: shape v) (data v)).
Proof.
  unfold add_maps_dimension, expand_dims.
  destruct (decide (ndim v = 5)) as [H5|H5].
  - by rewrite decide_False by (intros ?; done).
  - rewrite decide_True by done. rewrite decide_True by lia. done.
Qed.

(** Lines 105-118 when they complete: the maps are a new object. *)
Lemma load_sensemap_spec a l_in s :
  wp (load_sensemap W a l_in)
     (λ r s', ∀ l, r = Ok l →
        S l = length (heap s') ∧ length (heap s) ≤ l ∧
        ∀ X cx, cx_args cx = a → evolves X cx s s') s.
Proof.
  unfold load_sensemap. apply wp_bind.
  destruct (truthy (arg_sensemap a)) as [path|] eqn:Hmaps.
  - apply wp_bind, wp_lift. destruct (np_load _ _) as [v|]; simpl; [|done].
    apply wp_alloc. simpl.
    apply wp_bind, wp_read. simpl. rewrite list_lookup_middle by done. simpl.
    apply wp_bind, wp_lift. rewrite add_maps_dimension_Ok. simpl.
    apply wp_alloc. simpl. intros l [= <-]. rewrite !length_app. simpl.
    split; [lia|]. split; [lia|]. intros X cx _.
    apply (evolves_alloc _ _ _ (mk_state (heap s ++ [v]) (trace s))).
    apply evolves_alloc, evolves_refl.
  - apply wp_bind, wp_read. destruct (heap s !! l_in) as [kv|]; simpl; [|done].
    apply wp_bind, wp_lift. destruct (jsense_recon _ _ _) as [v|]; simpl; [|done].
    apply wp_bind, wp_alloc. simpl.
    apply wp_bind. eapply wp_mono.
    { apply (np_save_fresh _ _ [] (Build_loop_ctx a [] v 0) s s);
        [apply evolves_refl|by left]. }
    intros r s1 (-> & -> & _). simpl. apply wp_ret. simpl.
    apply wp_bind, wp_read. simpl. rewrite list_lookup_middle by done. simpl.
    apply wp_bind, wp_lift. rewrite add_maps_dimension_Ok. simpl.
    apply wp_alloc. simpl. intros l [= <-]. rewrite !length_app. simpl.
    split; [lia|]. split; [lia|]. intros X cx Hcx.
    apply (evolves_alloc _ _ _
             (mk_state (heap s ++ [astype Complex64 v])
                       (trace s ++ [NpSave _ (length (heap s)) _]))).
    apply (evolves_emit _ _ _ (mk_state (heap s ++ [astype Complex64 v]) (trace s))).
    + apply evolves_alloc, evolves_refl.
    + simpl. split; [done|]. left. by rewrite Hcx.
Qed.

Lemma truth_comparison_spec a truth X cx s0 s :
  evolves X cx s0 s →
  wp (truth_comparison W a truth)
     (λ r s', evolves X cx s0 s' ∧
              ∀ l, r = Ok l → length (heap s) ≤ l ∧ ∃ tv, heap s' !! l = Some tv) s.
Proof.
  intros Hev. unfold truth_comparison.
  apply wp_bind, wp_lift. destruct (ifft3c _ truth) as [image_truth|]; simpl; [|done].
  apply wp_bind, wp_alloc. simpl.
  set (s1 := mk_state (heap s ++ [image_truth]) (trace s)).
  assert (evolves X cx s0 s1) as Hev1 by by apply evolves_alloc.
  assert (heap s1 !! length (heap s) = Some image_truth) as Ht1
    by by apply list_lookup_middle.
  apply wp_bind, wp_read. rewrite Ht1. simpl.
  apply wp_bind, wp_lift. destruct (sumofsq _ _ _) as [image_truth_sos|]; simpl; [|done].
  apply wp_bind. eapply wp_mono.
  { apply (write_views_png_evolves _ _ [] cx s1 s1), evolves_refl. }
  intros r s2 Hev2. simpl.
  assert (evolves X cx s0 s2) as Hev2'.
  { eapply evolves_trans; [done|]. destruct Hev2 as [[Hl Hh] Hn].
    split; [|done]. split; [done|]. intros l Hlt _. apply Hh; [done|apply not_elem_of_nil]. }
  destruct r; [|done].
  apply wp_bind. eapply wp_mono.
  { by apply (when_plot_evolves _ _ _ [] cx s1 s2). }
  intros r s3 Hev3. simpl.
  assert (evolves X cx s0 s3) as Hev3'.
  { eapply evolves_trans; [exact Hev1|]. destruct Hev3 as [[Hl Hh] Hn].
    split; [|done]. split; [done|]. intros l Hlt _. apply Hh; [done|apply not_elem_of_nil]. }
  destruct r; [|done].
  apply wp_ret. split; [done|]. intros l [= <-]. split; [done|].
  exists image_truth. eapply evolves_lookup; [exact Hev3|done|apply not_elem_of_nil].
Qed.

Lemma input_comparison_spec a l_in l_t X cx kv tv s0 s :
  evolves X cx s0 s →
  heap s0 !! l_in = Some kv → l_in ∉ X →
  heap s0 !! l_t = Some tv → l_t ∉ X →
  wp (input_comparison W a l_in l_t) (λ _ s', evolves X cx s0 s') s.
Proof.
  intros Hev Hin HinX Ht HtX. unfold input_comparison.
  apply wp_bind, wp_read.
  rewrite (evolves_lookup _ _ _ _ _ _ Hev Hin HinX). simpl.
  apply wp_bind, wp_lift. destruct (ifft3c _ kv) as [image_input|]; simpl; [|done].
  apply wp_bind, wp_alloc. simpl.
  apply wp_bind. eapply wp_mono.
  { apply (compute_metrics_spec W _ _ tv image_input); simpl.
    - apply lookup_app_l_Some. by eapply (evolves_lookup _ _ _ _ _ _ Hev).
    - by apply list_lookup_middle. }
  intros r s5 [_ Hg]. simpl.
  eapply (evolves_alloc _ _ _ _ image_input) in Hev.
  pose proof (evolves_trans _ _ _ _ _ Hev (grows_evolves _ _ _ _ Hg)) as Hev5.
  destruct r as [results|]; [|done].
  apply wp_bind, wp_read. destruct (heap s5 !! _) as [ii|]; simpl; [|done].
  apply wp_bind, wp_lift. destruct (sumofsq _ _ _) as [image_input_sos|]; simpl; [|done].
  apply wp_bind. eapply wp_mono; [by apply write_views_png_evolves|].
  intros r s6 Hev6. destruct r; [|done].
  by apply when_plot_evolves.
Qed.

Lemma wp_makedirs {B} b dir (k : unit → M B) Q s :
  (∀ s1, heap s1 = heap s →
         trace s1 = trace s ∨ trace s1 = trace s ++ [Makedirs dir] →
         wp (k tt) Q s1) →
  wp (when b (emit (Makedirs dir)) ≫= k) Q s.
Proof.
  intros Hk. apply wp_bind. destruct b; simpl.
  - apply wp_emit, Hk; simpl; auto.
  - apply wp_ret, Hk; auto.
Qed.

(** A run of the script that completes: the input k-space is saved, and
    whatever is saved or handed to a model afterwards is another object. *)
Lemma main_spec a :
  wp (main W a)
     (λ r s', r = Ok tt →
        ∃ l_in l_s ki pre new,
          masked_kspace W a = Ok ki ∧
          trace s' = pre ++ NpSave (input_file a) l_in ki :: new ∧
          Forall setup_event_ok pre ∧
          Forall (event_ok (Build_loop_ctx a (model_names W a) ki l_s) (S l_in)) new ∧
          heap s' !! l_in = Some ki)
     (mk_state [] []).
Proof.
  unfold main.
  apply wp_bind, wp_lift.
  destruct (np_load _ _) as [truth|] eqn:Htruth; simpl; [|done].
  apply wp_bind, wp_lift. destruct (shape_at truth 0) as [nc|]; simpl; [|done].
  apply wp_bind, wp_lift. destruct (shape_at truth 1) as [z|] eqn:Hz; simpl; [|done].
  apply wp_bind, wp_lift. destruct (shape_at truth 2) as [y|] eqn:Hy; simpl; [|done].
  apply wp_bind, wp_lift. destruct (shape_at truth 3) as [x|]; simpl; [|done].
  apply wp_makedirs. simpl. intros s1 Hh1 Ht1.
  apply wp_bind. eapply wp_mono; [apply apply_mask_spec|].
  intros r s2 Hs2. destruct r as [l_in|]; [|done].
  destruct (Hs2 _ eq_refl) as (mask & mask' & prod & Hmask & Hmask' & Hprod & -> & ->).
  clear Hs2. simpl. rewrite Hh1. simpl.
  assert (masked_kspace W a = Ok (astype Complex64 prod)) as Hki.
  { unfold masked_kspace. rewrite Htruth. simpl. rewrite Hz. simpl. rewrite Hy. simpl.
    rewrite Hmask. simpl. rewrite Hmask'. simpl. by rewrite Hprod. }
  set (ki := astype Complex64 prod).
  set (sa := mk_state _ _).
  apply wp_bind. eapply wp_mono; [apply load_sensemap_spec|].
  intros r s3 Hs3. destruct r as [l_s|]; [|done].
  destruct (Hs3 _ eq_refl) as (Hl3 & Hl3' & Hev3). clear Hs3.
  set (cx := Build_loop_ctx a (model_names W a) ki l_s).
  specialize (Hev3 [l_s] cx eq_refl). simpl in Hl3'.
  assert (0 ∉ [l_s]) as Hin.
  { apply not_elem_of_cons; split; [lia|apply not_elem_of_nil]. }
  apply wp_bind. eapply wp_mono; [by apply truth_comparison_spec|].
  intros r s4 [Hev4 Hs4]. destruct r as [l_t|]; [|done].
  destruct (Hs4 _ eq_refl) as (Hl4 & tv & Ht4). clear Hs4.
  assert (heap s4 !! 0 = Some ki) as Hin4 by by eapply evolves_lookup.
  assert (l_t ≠ l_s) as Hnt by lia.
  apply wp_bind. eapply wp_mono.
  { apply (input_comparison_spec a 0 l_t [l_s] cx ki tv s4 s4); try done.
    - apply evolves_refl.
    - apply not_elem_of_cons; split; [done|apply not_elem_of_nil]. }
  intros r s5 Hev5. destruct r; [|done].
  apply wp_bind, wp_lift.
  destruct (listdir _ _) as [model_list|] eqn:Hlist; simpl; [|done].
  assert (model_names W a = model_list) as Hnames
    by (unfold model_names; by rewrite Hlist).
  eapply wp_mono.
  { apply (model_loop_spec a nc z y _ 0 l_s l_t model_list (model_names W a)
             ki tv s4 s5); [done|done|lia|done|done|].
    intros name. by rewrite Hnames. }
  simpl. intros r s' Hev _.
  pose proof (evolves_trans _ _ _ _ _ Hev4 Hev) as Hev'.
  destruct Hev' as [Hext (new & Htr & Hnew)].
  exists 0, l_s, ki, (trace s1 ++ [ImWrite (path_join (arg_output_dir a) "mask.png")
                     (astype UInt8 (mul_scalar (absolute mask) (num_of_Z 255)))]), new.
  split; [done|]. split; [|split; [|split]].
  - rewrite Htr. subst sa. simpl. by rewrite <- !app_assoc.
  - apply Forall_app. split.
    + destruct Ht1 as [-> | ->]; by repeat constructor.
    + repeat constructor. simpl. rewrite path_join_suffix; [done|done|simpl; lia].
  - done.
  - eapply evolves_lookup; [exact Hev|done|done].
Qed.

Lemma broadcast_mask_shape c z y x :
  broadcast_shapes [1; z; y; 1] [c; z; y; x] = Some [c; z; y; x].
Proof.
  unfold broadcast_shapes. cbn. unfold broadcast_dim.
  repeat case_decide; subst; simpl; try done; lia.
Qed.

Lemma masked_shape (mask mask' truth prod : ndarray E) c z y x :
  shape truth = [c; z; y; x] →
  reshape mask [1; z; y; 1] = Ok mask' → multiply mask' truth = Ok prod →
  shape prod = [c; z; y; x].
Proof.
  intros Ht Hr Hp. unfold reshape in Hr. case_decide; [|done]. injection Hr as <-.
  unfold multiply in Hp. cbn [shape] in Hp. rewrite Ht, broadcast_mask_shape in Hp.
  cbn [of_option mbind result_bind_inst result_bind] in Hp.
  destruct (gather _ _); [|done]. by injection Hp as <-.
Qed.

(** The product of the mask, reshaped to [(1, z, y, 1)], and a
    [(c, z, y, x)] array: each element is the mask at [(zi, yi)] times the
    element. *)
Lemma masked_elements (mask mask' truth prod : ndarray E) c z y x ci zi yi xi :
  shape mask = [z; y] → shape truth = [c; z; y; x] →
  reshape mask [1; z; y; 1] = Ok mask' → multiply mask' truth = Ok prod →
  ci < c → zi < z → yi < y → xi < x →
  shape prod = [c; z; y; x] ∧
  ∃ mv tv, get mask [zi; yi] = Some mv ∧ get truth [ci; zi; yi; xi] = Some tv ∧
           get prod [ci; zi; yi; xi] = Some (num_mul mv tv).
Proof.
  intros Hm Ht Hr Hp Hci Hzi Hyi Hxi.
  pose proof (masked_shape _ _ _ _ _ _ _ _ Ht Hr Hp) as Hsp.
  unfold reshape in Hr. case_decide; [|done]. injection Hr as <-.
  split; [done|].
  assert (Forall2 lt [ci; zi; yi; xi] (shape prod)) as Hb
    by (rewrite Hsp; by repeat constructor).
  pose proof (multiply_get _ _ _ _ Hp Hb) as Hg.
  assert (is_Some (get prod [ci; zi; yi; xi])) as [v Hv].
  { apply get_is_Some; [by eapply multiply_valid|done]. }
  rewrite Hv in Hg. simpl in Hg. rewrite Ht in Hg.
  assert (operand_index [1; z; y; 1] [ci; zi; yi; xi] = [0; zi; yi; 0]) as Hi1.
  { unfold operand_index. simpl. repeat case_decide; repeat f_equal; lia. }
  assert (operand_index [c; z; y; x] [ci; zi; yi; xi] = [ci; zi; yi; xi]) as Hi2.
  { unfold operand_index. simpl. repeat case_decide; repeat f_equal; lia. }
  rewrite Hi1, Hi2 in Hg.
  assert (get (mk_ndarray (arr_dtype mask) [1; z; y; 1] (data mask)) [0; zi; yi; 0]
          = get mask [zi; yi]) as Hgm.
  { unfold get. simpl. rewrite Hm. simpl. by rewrite !decide_True by lia. }
  rewrite Hgm in Hg.
  destruct (get mask [zi; yi]) as [mv|]; [|done]. simpl in Hg.
  destruct (get truth [ci; zi; yi; xi]) as [tv|]; [|done]. simpl in Hg.
  exists mv, tv. by rewrite Hv, Hg.
Qed.

(** C1. In a run that completes, the array saved to [kspace_input.npy] is
    the mask times the truth k-space at every position, converted to
    [complex64]; that object is saved exactly once: nothing is saved before
    it, and every later save is of another object. *)
Theorem kspace_input_saved_once a truth mask c z y x s' :
  np_load W (arg_kspace_truth a) = Ok truth → shape truth = [c; z; y; x] →
  poisson W [z; y] mask_accel [mask_calib; mask_calib] random_seed = Ok mask →
  shape mask = [z; y] →
  run W a = (Ok tt, s') →
  ∃ l_in ki pre new,
    trace s' = pre ++ NpSave (path_join (arg_output_dir a) "kspace_input.npy")
                        l_in ki :: new ∧
    saves pre = [] ∧
    Forall (λ '(path, l, v), l ≠ l_in) (saves new) ∧
    arr_dtype ki = Complex64 ∧ shape ki = [c; z; y; x] ∧
    ∀ ci zi yi xi, ci < c → zi < z → yi < y → xi < x →
      ∃ mv tv, get mask [zi; yi] = Some mv ∧
               get truth [ci; zi; yi; xi] = Some tv ∧
               get ki [ci; zi; yi; xi] = Some (num_cast Complex64 (num_mul mv tv)).
Proof.
  intros Htruth Hst Hmask Hsm Hrun.
  pose proof (main_spec a) as Hmain. unfold wp in Hmain. unfold run in Hrun.
  rewrite Hrun in Hmain. simpl in Hmain.
  destruct (Hmain eq_refl) as (l_in & l_s & ki & pre & new & Hki & Htr & Hpre & Hnew & _).
  unfold masked_kspace in Hki. rewrite Htruth in Hki. simpl in Hki.
  unfold shape_at in Hki. rewrite Hst in Hki. simpl in Hki.
  rewrite Hmask in Hki. simpl in Hki.
  destruct (reshape mask _) as [mask'|] eqn:Hmask'; [|done]. simpl in Hki.
  destruct (multiply mask' truth) as [prod|] eqn:Hprod; [|done]. simpl in Hki.
  injection Hki as <-.
  exists l_in, (astype Complex64 prod), pre, new.
  split; [done|]. split; [by apply saves_setup|]. split.
  { apply saves_event_ok in Hnew. eapply Forall_impl; [exact Hnew|].
    intros [[path l] v]. lia. }
  split; [done|].
  assert (∀ ci zi yi xi, ci < c → zi < z → yi < y → xi < x →
            shape prod = [c; z; y; x] ∧
            ∃ mv tv, get mask [zi; yi] = Some mv ∧
                     get truth [ci; zi; yi; xi] = Some tv ∧
                     get prod [ci; zi; yi; xi] = Some (num_mul mv tv)) as Hel
    by (intros; by eapply masked_elements).
  split.
  - simpl. by eapply masked_shape.
  - intros ci zi yi xi Hci Hzi Hyi Hxi.
    destruct (Hel ci zi yi xi Hci Hzi Hyi Hxi) as (_ & mv & tv & Hmv & Htv & Hp).
    exists mv, tv. split; [done|]. split; [done|].
    by rewrite get_astype, Hp.
Qed.

(** C10. The two branches of the sensitivity maps differ: maps loaded from
    a supplied path are used as stored (their dtype and elements are those
    of the file) and no file [sensemap.npy] is written, neither by lines
    105-118 nor by the rest of a run; computed maps are converted to
    [complex64] and saved to [sensemap.npy] before they are used. *)
Theorem load_sensemap_branches a :
  (∀ l_in s path v,
     truthy (arg_sensemap a) = Some path → np_load W path = Ok v →
     ∃ v', add_maps_dimension v = Ok v' ∧
           arr_dtype v' = arr_dtype v ∧ data v' = data v ∧
           load_sensemap W a l_in s
           = (Ok (S (length (heap s))),
              mk_state (heap s ++ [v; v']) (trace s))) ∧
  (∀ path s',
     truthy (arg_sensemap a) = Some path → run W a = (Ok tt, s') →
     Forall (λ e, written_file e ≠ Some (sensemap_file a)) (trace s')) ∧
  (∀ l_in s kv v,
     truthy (arg_sensemap a) = None → heap s !! l_in = Some kv →
     jsense_recon W kv mask_calib = Ok v →
     ∃ v', add_maps_dimension (astype Complex64 v) = Ok v' ∧
           arr_dtype v' = Complex64 ∧ data v' = num_cast Complex64 <$> data v ∧
           load_sensemap W a l_in s
           = (Ok (S (length (heap s))),
              mk_state (heap s ++ [astype Complex64 v; v'])
                (trace s ++ [NpSave (sensemap_file a) (length (heap s))
                               (astype Complex64 v)]))).
Proof.
  split; [|split].
  - intros l_in s path v Hp Hv. eexists. split; [apply add_maps_dimension_Ok|].
    split; [by case_decide|]. split; [by case_decide|].
    unfold load_sensemap, mbind, M_bind, lift, alloc, read, mret, M_ret.
    rewrite Hp, Hv. simpl. rewrite list_lookup_middle by done. simpl.
    rewrite add_maps_dimension_Ok. simpl.
    by rewrite length_app, Nat.add_1_r, <- app_assoc.
  - intros path s' Hmaps Hrun.
    pose proof (main_spec a) as Hmain. unfold wp in Hmain. unfold run in Hrun.
    rewrite Hrun in Hmain. simpl in Hmain.
    destruct (Hmain eq_refl) as (l_in & l_s & ki & pre & new & _ & -> & Hpre & Hnew & _).
    apply Forall_app. split; [|constructor].
    + eapply Forall_impl; [exact Hpre|]. intros e.
      apply (setup_not_npy a "sensemap.npy"); [done|done|simpl; lia].
    + simpl. intros [= H]. by eapply sensemap_file_not_input.
    + eapply Forall_impl; [exact Hnew|]. intros e.
      by apply event_ok_not_sensemap with path.
  - intros l_in s kv v Hp Hkv Hv. eexists. split; [apply add_maps_dimension_Ok|].
    split; [by case_decide|]. split; [by case_decide|].
    unfold load_sensemap, np_save, mbind, M_bind, lift, alloc, read, emit, mret, M_ret.
    rewrite Hp. simpl. rewrite Hkv. simpl. rewrite Hv. simpl.
    rewrite list_lookup_middle by done. simpl.
    rewrite list_lookup_middle by done. simpl.
    rewrite add_maps_dimension_Ok. simpl.
    by rewrite length_app, Nat.add_1_r, <- app_assoc.
Qed.

(** X1. The file [kspace_input.npy] is written exactly once in a run that
    completes, unless the model directory has an entry named [input]
    (whose output goes to the same file). *)
Theorem kspace_input_file_written_once a s' :
  "input" ∉ model_names W a →
  run W a = (Ok tt, s') →
  ∃ l_in ki pre new,
    trace s' = pre ++ NpSave (input_file a) l_in ki :: new ∧
    Forall (λ e, written_file e ≠ Some (input_file a)) (pre ++ new).
Proof.
  intros Hno Hrun.
  pose proof (main_spec a) as Hmain. unfold wp in Hmain. unfold run in Hrun.
  rewrite Hrun in Hmain. simpl in Hmain.
  destruct (Hmain eq_refl) as (l_in & l_s & ki & pre & new & _ & -> & Hpre & Hnew & _).
  exists l_in, ki, pre, new. split; [done|].
  apply Forall_app. split.
  - eapply Forall_impl; [exact Hpre|]. intros e.
    apply (setup_not_npy a "kspace_input.npy"); [done|done|simpl; lia].
  - eapply Forall_impl; [exact Hnew|]. intros e.
    by apply event_ok_not_input.
Qed.

(** C2, as the code has it.  After the maps are obtained, an array whose
    number of axes is not 5 gets a leading axis of extent 1 and keeps its
    elements; an array with exactly 5 axes is left as it is.  Maps of shape
    [(8,64,64,64)] get the shape [(1,8,64,64,64)]. *)
Theorem add_maps_dimension_spec (v : ndarray E) :
  ∃ v', add_maps_dimension v = Ok v' ∧
        arr_dtype v' = arr_dtype v ∧ data v' = data v ∧
        (ndim v = 5 → v' = v) ∧
        (ndim v ≠ 5 → shape v' = 1 :: shape v ∧
                      ∀ idx, get v' (0 :: idx) = get v idx) ∧
        (shape v = [8; 64; 64; 64] → shape v' = [1; 8; 64; 64; 64]).
Proof.
  eexists. split; [apply add_maps_dimension_Ok|].
  split; [by case_decide|]. split; [by case_decide|].
  split; [intros H5; by rewrite decide_True|].
  split.
  - intros H5. rewrite decide_False by done. split; [done|].
    intros idx. unfold get. simpl. destruct (offset (shape v) idx); simpl; [|done].
    done.
  - intros Hs. rewrite decide_False; [by rewrite Hs|]. unfold ndim. by rewrite Hs.
Qed.

End script.

(** *** The events of a run, by label *)

Section traces.
Context {E : Type} `{!Numeric E} (W : world (E := E)).
Local Abbreviation M := (Recon.M (E := E)).
Local Abbreviation state := (Recon.state (E := E)).
Local Abbreviation event := (Recon.event (E := E)).

Lemma emits_ret {A} (a : A) : emits (mret a : M A) [].
Proof. intros s. exists []. by rewrite app_nil_r. Qed.

Lemma emits_lift {A} (r : result A) : emits (lift r : M A) [].
Proof. intros s. exists []. rewrite app_nil_r. split; [done|]. destruct r; [done|apply prefix_nil]. Qed.

Lemma emits_alloc (v : ndarray E) : emits (alloc v) [].
Proof. intros s. exists []. by rewrite app_nil_r. Qed.

Lemma emits_read l : emits (read (E := E) l) [].
Proof.
  intros s. exists []. rewrite app_nil_r. split; [done|].
  unfold read. simpl. destruct (heap s !! l); [done|apply prefix_nil].
Qed.

Lemma emits_emit (e : event) : emits (emit e) [label_of e].
Proof. intros s. by exists [e]. Qed.

Lemma emits_bind {A B} (m : M A) (k : A → M B) L1 L2 :
  emits m L1 → (∀ a, emits (k a) L2) → emits (m ≫= k) (L1 ++ L2).
Proof.
  intros Hm Hk s. unfold mbind, M_bind.
  destruct (Hm s) as (n1 & Ht1 & H1). destruct (m s) as [[a|e] s1]; simpl in *.
  - destruct (Hk a s1) as (n2 & Ht2 & H2). exists (n1 ++ n2).
    split; [by rewrite Ht2, Ht1, app_assoc|].
    rewrite fmap_app, H1. destruct (k a s1).1; [by rewrite H2|by apply prefix_app].
  - exists n1. split; [done|]. by apply prefix_app_r.
Qed.

Lemma emits_bind_nil {A B} (m : M A) (k : A → M B) L :
  emits m [] → (∀ a, emits (k a) L) → emits (m ≫= k) L.
Proof. intros Hm Hk. by apply (emits_bind m k [] L). Qed.

Lemma emits_lift_bind {A B} (r : result A) (k : A → M B) L :
  (∀ a, r = Ok a → emits (k a) L) → emits (lift r ≫= k : M B) L.
Proof.
  intros Hk s. unfold mbind, M_bind, lift. destruct r as [a|e]; simpl.
  - by apply Hk.
  - exists []. rewrite app_nil_r. split; [done|]. apply prefix_nil.
Qed.

Lemma emits_call2 {T} (f : routine2 (E := E) T) a b : emits (call2 f a b) [].
Proof.
  intros s. exists []. rewrite app_nil_r.
  unfold call2, mbind, M_bind, read, write, lift. simpl.
  destruct (heap s !! a) as [va|]; simpl; [|split; [done|apply prefix_nil]].
  destruct (heap s !! b) as [vb|]; simpl; [|split; [done|apply prefix_nil]].
  destruct (f va vb) as [[r va'] vb']. simpl.
  destruct r; (split; [done|]); [done|apply prefix_nil].
Qed.

Lemma emits_copy_obj l : emits (copy_obj (E := E) l) [].
Proof. apply emits_bind_nil; [apply emits_read|]. intros a. apply emits_alloc. Qed.

Lemma emits_foldM {A B} (f : B → A → M B) (L : A → list label) b l :
  (∀ b x, emits (f b x) (L x)) → emits (foldM f b l) (x ← l; L x).
Proof.
  intros Hf. revert b. induction l as [|x l IH]; intros b; simpl.
  - apply emits_ret.
  - apply emits_bind; [apply Hf|]. intros b'. apply IH.
Qed.


Lemma emits_when b (m : M unit) L :
  emits m L → emits (when b m) (if b then L else []).
Proof. intros Hm. destruct b; [done|apply emits_ret]. Qed.

Lemma write_views_png_emits filebase (image : ndarray E) :
  emits (write_views_png filebase image) (views_labels filebase).
Proof.
  unfold write_views_png, imwrite.
  apply emits_lift_bind. intros m _.
  apply emits_lift_bind. intros s0 _.
  apply emits_lift_bind. intros v0 _.
  apply (emits_bind _ _ [_] [_; _]); [apply emits_emit|]. intros _.
  apply emits_lift_bind. intros s1 _.
  apply emits_lift_bind. intros v1 _.
  apply (emits_bind _ _ [_] [_]); [apply emits_emit|]. intros _.
  apply emits_lift_bind. intros s2 _.
  apply emits_lift_bind. intros v2 _.
  apply emits_emit.
Qed.

Lemma show_plot_emits title (image : ndarray E) :
  emits (show_plot title image) [LShow title].
Proof.
  unfold show_plot.
  apply emits_lift_bind. intros s0 _.
  apply emits_lift_bind. intros v _.
  apply emits_emit.
Qed.

Lemma when_plot_emits a title (image : ndarray E) :
  emits (when (arg_plot a) (show_plot title image)) (plot_labels a title).
Proof. apply emits_when, show_plot_emits. Qed.

Lemma ssim_step_emits ref x acc i : emits (ssim_step W ref x acc i) [].
Proof.
  unfold ssim_step.
  apply emits_bind_nil; [apply emits_read|]. intros rv.
  apply emits_lift_bind. intros rs _.
  apply emits_bind_nil; [apply emits_alloc|]. intros rc.
  apply emits_bind_nil; [apply emits_read|]. intros xv.
  apply emits_lift_bind. intros xs _.
  apply emits_bind_nil; [apply emits_alloc|]. intros xc.
  apply emits_bind_nil; [apply emits_call2|]. intros ssim_i.
  apply emits_ret.
Qed.

Lemma bind_nil_const {A B} (l : list A) : (x ← l; ([] : list B)) = [].
Proof. induction l as [|x l IH]; [done|]. by rewrite bind_cons, IH. Qed.

Lemma compute_metrics_emits ref x : emits (compute_metrics W ref x) [].
Proof.
  unfold compute_metrics.
  apply emits_bind_nil; [apply emits_copy_obj|]. intros r1.
  apply emits_bind_nil; [apply emits_copy_obj|]. intros x1.
  apply emits_bind_nil; [apply emits_call2|]. intros psnr.
  apply emits_bind_nil; [apply emits_copy_obj|]. intros r2.
  apply emits_bind_nil; [apply emits_copy_obj|]. intros x2.
  apply emits_bind_nil; [apply emits_call2|]. intros nrmse.
  apply emits_bind_nil; [apply emits_read|]. intros rv.
  apply emits_lift_bind. intros n _.
  apply emits_bind_nil.
  { rewrite <- (bind_nil_const (seq 0 n)). apply emits_foldM.
    intros b i. apply ssim_step_emits. }
  intros ssim_total.
  apply emits_bind_nil; [apply emits_read|]. intros rv'.
  apply emits_lift_bind. intros n' _.
  apply emits_lift_bind. intros ssim _.
  apply emits_ret.
Qed.

Lemma np_save_emits path l : emits (np_save (E := E) path l) [LArray path].
Proof.
  unfold np_save. apply emits_bind_nil; [apply emits_read|]. intros v.
  apply (emits_emit (NpSave path l v)).
Qed.

Lemma apply_mask_emits a truth z y :
  emits (apply_mask W a truth z y)
        [LImage (path_join (arg_output_dir a) "mask.png"); LArray (input_file a)].
Proof.
  unfold apply_mask, imwrite.
  apply emits_lift_bind. intros mask _.
  apply (emits_bind _ _ [_] [_]); [apply emits_emit|]. intros _.
  apply emits_lift_bind. intros mask' _.
  apply emits_lift_bind. intros prod _.
  apply emits_bind_nil; [apply emits_alloc|]. intros l.
  apply (emits_bind _ _ [_] []); [apply np_save_emits|]. intros _.
  apply emits_ret.
Qed.

Lemma load_sensemap_emits a l_in :
  emits (load_sensemap W a l_in)
        match truthy (arg_sensemap a) with
        | Some _ => []
        | None => [LArray (sensemap_file a)]
        end.
Proof.
  unfold load_sensemap. destruct (truthy (arg_sensemap a)) as [path|].
  - apply emits_bind_nil.
    { apply emits_lift_bind. intros v _. apply emits_alloc. }
    intros l. apply emits_bind_nil; [apply emits_read|]. intros v.
    apply emits_lift_bind. intros v' _. apply emits_alloc.
  - apply (emits_bind _ _ [_] []).
    { apply emits_bind_nil; [apply emits_read|]. intros ki.
      apply emits_lift_bind. intros v _.
      apply emits_bind_nil; [apply emits_alloc|]. intros l.
      apply (emits_bind _ _ [_] []); [apply np_save_emits|]. intros _.
      apply emits_ret. }
    intros l. apply emits_bind_nil; [apply emits_read|]. intros v.
    apply emits_lift_bind. intros v' _. apply emits_alloc.
Qed.

Lemma truth_comparison_emits a truth :
  emits (truth_comparison W a truth)
        (views_labels (path_join (arg_output_dir a) "truth") ++ plot_labels a "Truth").
Proof.
  unfold truth_comparison.
  apply emits_lift_bind. intros image_truth _.
  apply emits_bind_nil; [apply emits_alloc|]. intros l.
  apply emits_bind_nil; [apply emits_read|]. intros it.
  apply emits_lift_bind. intros sos _.
  apply emits_bind; [apply write_views_png_emits|]. intros _.
  rewrite <- (app_nil_r (plot_labels a "Truth")).
  apply emits_bind; [apply when_plot_emits|]. intros _.
  apply emits_ret.
Qed.

Lemma input_comparison_emits a l_in l_t :
  emits (input_comparison W a l_in l_t)
        (views_labels (path_join (arg_output_dir a) "input") ++ plot_labels a "Input").
Proof.
  unfold input_comparison.
  apply emits_bind_nil; [apply emits_read|]. intros ki.
  apply emits_lift_bind. intros image_input _.
  apply emits_bind_nil; [apply emits_alloc|]. intros l.
  apply emits_bind_nil; [apply compute_metrics_emits|]. intros results.
  apply emits_bind_nil; [apply emits_read|]. intros ii.
  apply emits_lift_bind. intros sos _.
  apply emits_bind; [apply write_views_png_emits|]. intros _.
  apply when_plot_emits.
Qed.

Lemma run_model_emits a nc z y lvl l_in l_s l_t name :
  emits (run_model W a nc z y lvl l_in l_s l_t name) (model_labels a name).
Proof.
  unfold run_model, model_labels.
  apply emits_lift_bind. intros model _.
  apply emits_bind_nil; [apply emits_copy_obj|]. intros k.
  apply emits_bind_nil; [apply emits_read|]. intros vk.
  apply emits_bind_nil; [apply emits_read|]. intros vs.
  apply (emits_bind _ _ [_]); [apply (emits_emit (Call _ k l_s vk vs))|]. intros _.
  apply emits_bind_nil; [apply emits_call2|]. intros out.
  apply emits_bind_nil; [apply emits_alloc|]. intros l.
  apply (emits_bind _ _ [_]); [apply np_save_emits|]. intros _.
  apply emits_bind_nil; [apply emits_read|]. intros ko.
  apply emits_lift_bind. intros image_output _.
  apply emits_bind_nil; [apply emits_alloc|]. intros l'.
  apply emits_bind_nil; [apply compute_metrics_emits|]. intros results.
  apply emits_bind_nil; [apply emits_read|]. intros io.
  apply emits_lift_bind. intros sos _.
  apply emits_bind; [apply write_views_png_emits|]. intros _.
  apply when_plot_emits.
Qed.

Lemma model_loop_emits a nc z y lvl l_in l_s l_t model_list :
  emits (model_loop W a nc z y lvl l_in l_s l_t model_list)
        (model_basename ← model_list; model_labels a model_basename).
Proof. unfold model_loop. apply emits_foldM. intros _ name. apply run_model_emits. Qed.

Lemma main_emits a : emits (main W a) (run_labels W a).
Proof.
  unfold main, run_labels.
  apply emits_lift_bind. intros truth _.
  apply emits_lift_bind. intros nc _.
  apply emits_lift_bind. intros z _.
  apply emits_lift_bind. intros y _.
  apply emits_lift_bind. intros x _.
  apply emits_bind.
  { destruct (path_exists W _); simpl; [apply emits_ret|apply (emits_emit (Makedirs _))]. }
  intros _.
  apply (emits_bind _ _ [_; _]); [apply apply_mask_emits|]. intros l_in.
  apply emits_bind; [apply load_sensemap_emits|]. intros l_s.
  rewrite (app_assoc (views_labels _) (plot_labels a "Truth")).
  apply emits_bind; [apply truth_comparison_emits|]. intros l_t.
  rewrite (app_assoc (views_labels _) (plot_labels a "Input")).
  apply emits_bind; [apply input_comparison_emits|]. intros _.
  apply emits_lift_bind. intros model_list Hlist.
  unfold model_names. rewrite Hlist. apply model_loop_emits.
Qed.


(** *** Reading the labels of a trace *)

Lemma written_files_labels (tr : list event) :
  written_files tr = omap label_file (label_of <$> tr).
Proof.
  unfold written_files. induction tr as [|e tr IH]; [done|].
  destruct e; simpl; first [exact IH|f_equal; exact IH].
Qed.

Lemma shown_titles_labels (tr : list event) :
  shown_titles tr
  = omap (λ lb, match lb with LShow t => Some t | _ => None end) (label_of <$> tr).
Proof.
  unfold shown_titles. induction tr as [|e tr IH]; [done|].
  destruct e; simpl; first [exact IH|f_equal; exact IH].
Qed.

Lemma called_models_labels (tr : list event) :
  called_models tr
  = omap (λ lb, match lb with LCall n => Some n | _ => None end) (label_of <$> tr).
Proof.
  unfold called_models. induction tr as [|e tr IH]; [done|].
  destruct e; simpl; first [exact IH|f_equal; exact IH].
Qed.

Lemma omap_prefix {A B} (f : A → option B) (l1 l2 : list A) :
  l1 `prefix_of` l2 → omap f l1 `prefix_of` omap f l2.
Proof. intros [k ->]. rewrite omap_app. by apply prefix_app_r. Qed.

Lemma omap_bind {A B C} (f : B → option C) (g : A → list B) (l : list A) :
  omap f (x ← l; g x) = (x ← l; omap f (g x)).
Proof.
  induction l as [|x l IH]; [done|]. by rewrite !bind_cons, omap_app, IH.
Qed.

Lemma plot_labels_files a title : omap label_file (plot_labels a title) = [].
Proof. unfold plot_labels. by destruct (arg_plot a). Qed.

Lemma model_labels_files a m :
  omap label_file (model_labels a m)
  = model_file a m :: views_files (path_join (arg_output_dir a) m).
Proof.
  unfold model_labels. simpl. f_equal.
  change (omap label_file (views_labels (path_join (arg_output_dir a) m)
                           ++ plot_labels a m)
          = views_files (path_join (arg_output_dir a) m)).
  by rewrite omap_app, plot_labels_files, app_nil_r.
Qed.

Lemma run_labels_files a :
  omap label_file (run_labels W a) = output_files a (model_names W a).
Proof.
  unfold run_labels, output_files.
  rewrite !omap_app, !plot_labels_files, omap_bind.
  assert ((m ← model_names W a; omap label_file (model_labels a m))
          = (m ← model_names W a;
             model_file a m :: views_files (path_join (arg_output_dir a) m))) as ->.
  { induction (model_names W a) as [|m l IH]; [done|].
    by rewrite !bind_cons, IH, model_labels_files. }
  by destruct (path_exists W _); destruct (truthy _).
Qed.


Lemma plot_labels_calls a title :
  omap (λ lb, match lb with LCall n => Some n | _ => None end) (plot_labels a title) = [].
Proof. unfold plot_labels. by destruct (arg_plot a). Qed.

Lemma views_labels_calls filebase :
  omap (λ lb, match lb with LCall n => Some n | _ => None end) (views_labels filebase) = [].
Proof. done. Qed.

Lemma model_labels_calls a m :
  omap (λ lb, match lb with LCall n => Some n | _ => None end) (model_labels a m)
  = [path_join (arg_model_root_dir a) m].
Proof.
  unfold model_labels.
  change (path_join (arg_model_root_dir a) m
          :: omap (λ lb, match lb with LCall n => Some n | _ => None end)
                  (views_labels (path_join (arg_output_dir a) m) ++ plot_labels a m)
          = [path_join (arg_model_root_dir a) m]).
  by rewrite omap_app, views_labels_calls, plot_labels_calls.
Qed.

Lemma run_labels_calls a :
  omap (λ lb, match lb with LCall n => Some n | _ => None end) (run_labels W a)
  = path_join (arg_model_root_dir a) <$> model_names W a.
Proof.
  unfold run_labels. rewrite !omap_app, !plot_labels_calls, omap_bind.
  assert (∀ l : list string,
            (m ← l; omap (λ lb, match lb with LCall n => Some n | _ => None end)
                         (model_labels a m))
            = path_join (arg_model_root_dir a) <$> l) as ->.
  { induction l as [|m l IH]; [done|].
    by rewrite bind_cons, IH, fmap_cons, model_labels_calls. }
  by destruct (path_exists W _); destruct (truthy _).
Qed.

Lemma run_labels_titles a :
  omap (λ lb, match lb with LShow t => Some t | _ => None end) (run_labels W a)
  = if arg_plot a then "Truth" :: "Input" :: model_names W a else [].
Proof.
  unfold run_labels. rewrite !omap_app, omap_bind.
  assert (∀ l : list string,
            (m ← l; omap (λ lb, match lb with LShow t => Some t | _ => None end)
                         (model_labels a m))
            = if arg_plot a then l else []) as ->.
  { induction l as [|m l IH]; [by destruct (arg_plot a)|]. rewrite bind_cons, IH.
    unfold model_labels, plot_labels. by destruct (arg_plot a). }
  unfold plot_labels.
  by destruct (path_exists W _); destruct (truthy _); destruct (arg_plot a).
Qed.

(** The labels of the trace of a run, whatever its outcome. *)
Lemma run_trace_labels a :
  label_of <$> trace (run W a).2 `prefix_of` run_labels W a ∧
  ((run W a).1 = Ok tt → label_of <$> trace (run W a).2 = run_labels W a).
Proof.
  unfold run. destruct (main_emits a (mk_state [] [])) as (new & -> & H). simpl.
  destruct (main W a _).1 as [[]|e]; [by rewrite H|]. by split.
Qed.

(** X2. The image and array files of a run.  Whatever its outcome, a run
    writes an initial part of the list [mask.png], [kspace_input.npy],
    [sensemap.npy] (when the maps are computed), the three views of the
    truth, the three views of the input, and for each entry of the model
    directory, in listing order, its k-space file and its three views; a
    run that completes writes exactly this list, in this order. *)
Theorem run_output_files a :
  written_files (trace (run W a).2) `prefix_of` output_files a (model_names W a) ∧
  ((run W a).1 = Ok tt →
   written_files (trace (run W a).2) = output_files a (model_names W a)).
Proof.
  destruct (run_trace_labels a) as [Hpre Heq].
  rewrite written_files_labels, <- run_labels_files. split.
  - by apply omap_prefix.
  - intros Hok. by rewrite (Heq Hok).
Qed.

(** X3. The models of a run.  [model.run] is called on the entries of the
    model directory in listing order, each under the name
    [os.path.join(model_root_dir, entry)]: once per entry in a run that
    completes, and on an initial part of the entries otherwise. *)
Theorem run_calls_models a :
  called_models (trace (run W a).2)
    `prefix_of` (path_join (arg_model_root_dir a) <$> model_names W a) ∧
  ((run W a).1 = Ok tt →
   called_models (trace (run W a).2)
   = path_join (arg_model_root_dir a) <$> model_names W a).
Proof.
  destruct (run_trace_labels a) as [Hpre Heq].
  rewrite called_models_labels, <- run_labels_calls. split.
  - by apply omap_prefix.
  - intros Hok. by rewrite (Heq Hok).
Qed.

(** X4. The figures of a run.  Without [--plot] no figure is shown,
    whatever the outcome of the run; with [--plot] a run that completes
    shows the figures titled [Truth], [Input] and then one per entry of
    the model directory, titled by the entry, and a run that fails has
    shown an initial part of them. *)
Theorem run_shows_figures a :
  shown_titles (trace (run W a).2)
    `prefix_of` (if arg_plot a then "Truth" :: "Input" :: model_names W a else []) ∧
  ((run W a).1 = Ok tt →
   shown_titles (trace (run W a).2)
   = if arg_plot a then "Truth" :: "Input" :: model_names W a else []).
Proof.
  destruct (run_trace_labels a) as [Hpre Heq].
  rewrite shown_titles_labels, <- run_labels_titles. split.
  - by apply omap_prefix.
  - intros Hok. by rewrite (Heq Hok).
Qed.


Lemma Forall_prefix {A} (P : A → Prop) (l1 l2 : list A) :
  l1 `prefix_of` l2 → Forall P l2 → Forall P l1.
Proof. intros [k ->] H. by apply Forall_app in H as [H _]. Qed.

Lemma plot_labels_no_makedirs a title :
  Forall (λ lb, ∀ dir, lb ≠ LMakedirs dir) (plot_labels a title).
Proof. unfold plot_labels. destruct (arg_plot a); by repeat constructor. Qed.

Lemma run_labels_makedirs a :
  ∃ R, run_labels W a
       = (if path_exists W (arg_output_dir a) then []
          else [LMakedirs (arg_output_dir a)]) ++ R ∧
       Forall (λ lb, ∀ dir, lb ≠ LMakedirs dir) R.
Proof.
  eexists. split; [reflexivity|].
  rewrite !Forall_app. repeat split;
    try apply plot_labels_no_makedirs; try by repeat constructor.
  - destruct (truthy _); by repeat constructor.
  - apply Forall_bind, Forall_forall. intros m _. unfold model_labels. simpl.
    do 5 (constructor; [done|]). apply plot_labels_no_makedirs.
Qed.

Lemma no_makedirs_events (tr : list event) :
  Forall (λ lb, ∀ dir, lb ≠ LMakedirs dir) (label_of <$> tr) →
  Forall (λ e, ∀ dir, e ≠ Makedirs dir) tr.
Proof.
  rewrite Forall_fmap. intros H. eapply Forall_impl; [exact H|].
  intros e He dir ->. by apply (He dir).
Qed.

(** X5. The output directory is created only when it is missing, at most
    once, and before any image or array is written, any figure shown and
    any model run. *)
Theorem run_creates_output_dir a :
  (path_exists W (arg_output_dir a) = true →
   Forall (λ e, ∀ dir, e ≠ Makedirs dir) (trace (run W a).2)) ∧
  (path_exists W (arg_output_dir a) = false →
   trace (run W a).2 = [] ∨
   ∃ rest, trace (run W a).2 = Makedirs (arg_output_dir a) :: rest ∧
           Forall (λ e, ∀ dir, e ≠ Makedirs dir) rest).
Proof.
  destruct (run_trace_labels a) as [Hpre _].
  destruct (run_labels_makedirs a) as (R & HR & HRno). rewrite HR in Hpre.
  split; intros Hex; rewrite Hex in Hpre; simpl in Hpre.
  - apply no_makedirs_events. by eapply Forall_prefix.
  - destruct (trace (run W a).2) as [|e rest]; [by left|right].
    rewrite fmap_cons in Hpre.
    pose proof (prefix_cons_inv_1 _ _ _ _ Hpre) as He.
    apply prefix_cons_inv_2 in Hpre.
    exists rest. split.
    + destruct e; simpl in He; try discriminate He. by injection He as ->.
    + apply no_makedirs_events. by eapply Forall_prefix.
Qed.

End traces.

(** *** Edge cases of the script and of its two functions *)

Section edges.
Context {E : Type} `{!Numeric E} (W : world (E := E)).
Local Abbreviation M := (Recon.M (E := E)).
Local Abbreviation state := (Recon.state (E := E)).
Local Abbreviation event := (Recon.event (E := E)).

(** X6. In a run that completes, every call of [model.run] receives, in an
    object of its own, exactly the array that was saved to
    [kspace_input.npy], together with one and the same object for the
    sensitivity maps; no model is called before that file is saved, and at
    the end the input k-space still holds what was saved. *)
Theorem run_models_receive_saved_input a s' :
  run W a = (Ok tt, s') →
  ∃ l_in l_s ki pre new,
    trace s' = pre ++ NpSave (input_file a) l_in ki :: new ∧
    calls pre = [] ∧
    Forall (λ '(name, k, ls, vk, vs), k ≠ l_in ∧ ls = l_s ∧ vk = ki) (calls new) ∧
    heap s' !! l_in = Some ki.
Proof.
  intros Hrun.
  pose proof (main_spec W a) as Hmain. unfold wp in Hmain. unfold run in Hrun.
  rewrite Hrun in Hmain. simpl in Hmain.
  destruct (Hmain eq_refl) as (l_in & l_s & ki & pre & new & _ & Htr & Hpre & Hnew & Hin).
  exists l_in, l_s, ki, pre, new. split; [done|]. split; [|split; [|done]].
  - clear Htr. induction Hpre as [|e pre He _ IH]; [done|]. by destruct e.
  - apply calls_event_ok in Hnew. eapply Forall_impl; [exact Hnew|].
    intros [[[[name k] ls] vk] vs]. simpl. intros (Hk & -> & ->). repeat split. lia.
Qed.

(** X7. A truth k-space with fewer than four axes stops the run with an
    [IndexError] at lines 79-82, before the output directory is created
    and before any image or array is written. *)
Theorem run_rejects_short_truth a truth :
  np_load W (arg_kspace_truth a) = Ok truth → ndim truth < 4 →
  run W a = (Raise IndexError, mk_state [] []).
Proof.
  intros Htruth Hnd. unfold run, main, mbind, M_bind, lift. rewrite Htruth. simpl.
  unfold shape_at, ndim in *.
  destruct (shape truth) as [|c [|z [|y [|x sh]]]]; simpl in *; try done. lia.
Qed.

(** The mask of shape [(z, y)], reshaped to [(1, z, y, 1)], broadcasts
    against every well-formed [(c, z, y, x)] array. *)
Lemma multiply_mask_Ok (mask truth : ndarray E) c z y x :
  valid truth → shape truth = [c; z; y; x] →
  valid mask → shape mask = [z; y] →
  ∃ mask' prod, reshape mask [1; z; y; 1] = Ok mask' ∧ multiply mask' truth = Ok prod.
Proof.
  intros Hvt Hst Hvm Hsm.
  assert (size [1; z; y; 1] = size (shape mask)) as Hsize
    by (rewrite Hsm; simpl; lia).
  unfold reshape. rewrite decide_True by done.
  destruct (gather_is_Some [c; z; y; x]
              (λ idx,
                 x0 ← get (mk_ndarray (arr_dtype mask) [1; z; y; 1] (data mask))
                          (operand_index [1; z; y; 1] idx);
                 y0 ← get truth (operand_index [c; z; y; x] idx);
                 Some (num_mul x0 y0))) as [d Hd].
  { intros idx Hidx. apply indices_offset, offset_is_Some in Hidx.
    inversion Hidx as [|ci ? idx1 ? Hci H1]; subst.
    inversion H1 as [|zi ? idx2 ? Hzi H2]; subst.
    inversion H2 as [|yi ? idx3 ? Hyi H3]; subst.
    inversion H3 as [|xi ? idx4 ? Hxi H4]; subst.
    inversion H4; subst.
    destruct (get_is_Some (mk_ndarray (arr_dtype mask) [1; z; y; 1] (data mask))
                (operand_index [1; z; y; 1] [ci; zi; yi; xi])) as [mv ->].
    { unfold valid. cbn [data shape]. by rewrite Hsize. }
    { unfold operand_index. simpl.
      repeat constructor; repeat case_decide; lia. }
    destruct (get_is_Some truth (operand_index [c; z; y; x] [ci; zi; yi; xi]))
      as [tv ->]; [done| |by eexists].
    rewrite Hst. unfold operand_index. simpl.
    repeat constructor; repeat case_decide; lia. }
  eexists. eexists. split; [done|].
  unfold multiply. cbn [shape]. rewrite Hst, broadcast_mask_shape.
  cbn [of_option mbind result_bind_inst result_bind].
  rewrite Hd. done.
Qed.

(** X8. For a well-formed four-axis truth k-space and a well-formed mask of
    shape [(z, y)], lines 91-103 cannot fail: the reshape to
    [(1, z, y, 1)] and the broadcast product are always defined, and the
    step returns the new input k-space after writing [mask.png] and
    [kspace_input.npy]. *)
Theorem apply_mask_succeeds a (truth mask : ndarray E) c z y x (s : state) :
  valid truth → shape truth = [c; z; y; x] →
  poisson W [z; y] mask_accel [mask_calib; mask_calib] random_seed = Ok mask →
  valid mask → shape mask = [z; y] →
  ∃ ki,
    apply_mask W a truth z y s
    = (Ok (length (heap s)),
       mk_state (heap s ++ [ki])
         (trace s ++ [ImWrite (path_join (arg_output_dir a) "mask.png")
                        (astype UInt8 (mul_scalar (absolute mask) (num_of_Z 255)));
                      NpSave (input_file a) (length (heap s)) ki])) ∧
    arr_dtype ki = Complex64 ∧ shape ki = [c; z; y; x] ∧ valid ki.
Proof.
  intros Hvt Hst Hmask Hvm Hsm.
  destruct (multiply_mask_Ok mask truth c z y x Hvt Hst Hvm Hsm)
    as (mask' & prod & Hr & Hp).
  exists (astype Complex64 prod). split; [|split; [done|split]].
  - unfold apply_mask, imwrite, np_save.
    unfold mbind, M_bind, lift, emit, alloc, read, mret, M_ret.
    rewrite Hmask. simpl. rewrite Hr. simpl. rewrite Hp. simpl.
    rewrite list_lookup_middle by done. simpl. by rewrite <- app_assoc.
  - simpl. by eapply masked_shape.
  - by eapply valid_astype, multiply_valid.
Qed.

(** X9. The image written to [mask.png] has the shape of the mask, and each
    of its pixels is the magnitude of the mask there, times 255, converted
    to [uint8]; it is written before the input k-space is saved. *)
Theorem apply_mask_writes_mask_image a (truth mask : ndarray E) z y (s s' : state) l :
  poisson W [z; y] mask_accel [mask_calib; mask_calib] random_seed = Ok mask →
  apply_mask W a truth z y s = (Ok l, s') →
  ∃ img ki,
    trace s' = trace s ++ [ImWrite (path_join (arg_output_dir a) "mask.png") img;
                           NpSave (input_file a) l ki] ∧
    arr_dtype img = UInt8 ∧ shape img = shape mask ∧
    ∀ idx, get img idx
           = (λ v, num_cast UInt8 (num_mul (num_abs v) (num_of_Z 255))) <$> get mask idx.
Proof.
  intros Hmask Hrun.
  pose proof (apply_mask_spec W a truth z y s) as Hspec. unfold wp in Hspec.
  rewrite Hrun in Hspec. simpl in Hspec.
  destruct (Hspec l eq_refl) as (mask0 & mask' & prod & Hmask0 & _ & _ & -> & ->).
  rewrite Hmask in Hmask0. injection Hmask0 as <-.
  eexists. eexists. split; [done|]. split; [done|]. split; [done|].
  intros idx. rewrite get_astype, get_mul_scalar, get_absolute.
  by destruct (get mask idx).
Qed.

#[local] Arguments Nat.div : simpl never.

(** X10. On a volume with no element (some axis is empty) the maximum of
    line 34 is undefined: [write_views_png] raises [ValueError] and has
    written nothing. *)
Theorem write_views_png_rejects_empty filebase (image : ndarray E) (s : state) :
  valid image → size (shape image) = 0 →
  write_views_png filebase image s = (Raise ValueError, s).
Proof.
  intros Hv H0. unfold valid in Hv. rewrite H0 in Hv.
  apply length_zero_iff_nil in Hv.
  unfold write_views_png, mbind, M_bind, lift, amax, absolute. simpl.
  by rewrite Hv.
Qed.

(** X11. On a non-empty array with fewer than three axes the first view
    cannot be taken: [write_views_png] raises [IndexError] and has written
    nothing. *)
Theorem write_views_png_rejects_few_axes filebase (image : ndarray E) (s : state) :
  valid image → 0 < size (shape image) → ndim image < 3 →
  write_views_png filebase image s = (Raise IndexError, s).
Proof.
  intros Hv Hs Hnd.
  destruct (amax_Ok (absolute image)) as [m Hm].
  { unfold valid, absolute. simpl. by rewrite length_fmap. }
  { done. }
  unfold write_views_png, mbind, M_bind, lift. rewrite Hm.
  unfold shape_at, subscript, ndim in *. cbn [shape mul_scalar div_scalar].
  destruct (shape image) as [|a [|b [|c sh]]]; simpl in *; try done; try lia.
  - rewrite decide_True; [done|]. apply Nat.div_lt; lia.
  - rewrite decide_True; [done|]. apply Nat.div_lt; nia.
Qed.

Lemma write_views_png_heap filebase (image : ndarray E) (s : state) :
  heap (write_views_png filebase image s).2 = heap s.
Proof.
  unfold write_views_png, imwrite, mbind, M_bind, lift, emit.
  destruct (amax _) as [m|]; simpl; [|done].
  destruct (shape_at _ 0) as [s0|]; simpl; [|done].
  destruct (subscript _ _) as [v0|]; simpl; [|done].
  destruct (shape_at _ 1) as [s1|]; simpl; [|done].
  destruct (subscript _ _) as [v1|]; simpl; [|done].
  destruct (shape_at _ 2) as [s2|]; simpl; [|done].
  by destruct (subscript _ _) as [v2|].
Qed.

Lemma when_plot_heap b title (image : ndarray E) (s : state) :
  heap (when b (show_plot title image) s).2 = heap s.
Proof.
  destruct b; [|done]. unfold when, show_plot, mbind, M_bind, lift, emit.
  destruct (shape_at _ 0) as [s0|]; simpl; [|done].
  by destruct (subscript _ _) as [v|].
Qed.

(** X12. Whatever array it is given, [write_views_png] changes no object of
    the store and writes nothing but its three files, in the order
    [_sag.png], [_cor.png], [_ax.png]: all three when it returns, an
    initial part of them when it raises. *)
Theorem write_views_png_files filebase (image : ndarray E) (s : state) :
  heap (write_views_png filebase image s).2 = heap s ∧
  ∃ new,
    trace (write_views_png filebase image s).2 = trace s ++ new ∧
    label_of <$> new `prefix_of` (LImage <$> views_files filebase) ∧
    ((write_views_png filebase image s).1 = Ok tt →
     label_of <$> new = LImage <$> views_files filebase).
Proof.
  split; [apply write_views_png_heap|].
  destruct (write_views_png_emits filebase image s) as (new & Ht & H).
  exists new. split; [done|].
  destruct (write_views_png filebase image s).1 as [[]|e]; [|by split].
  unfold views_labels in H. by rewrite H.
Qed.

Lemma sub_shape_few_axes i sh :
  length sh < 4 → sub_shape [Slice; Slice; Slice; At i] sh = None.
Proof.
  intros H. destruct sh as [|a [|b [|c [|d sh]]]]; simpl in *; try done. lia.
Qed.

(** X13. [compute_metrics] is a function of what its two arguments hold:
    the result does not depend on the rest of the store, nor on where the
    two arrays live; the call writes nothing to the outside and leaves
    every object that existed before it as it was. *)
Theorem compute_metrics_pure r1 x1 r2 x2 rv xv (s1 s2 : state) :
  heap s1 !! r1 = Some rv → heap s1 !! x1 = Some xv →
  heap s2 !! r2 = Some rv → heap s2 !! x2 = Some xv →
  (compute_metrics W r1 x1 s1).1 = (compute_metrics W r2 x2 s2).1 ∧
  trace (compute_metrics W r1 x1 s1).2 = trace s1 ∧
  ∀ l v, heap s1 !! l = Some v → heap (compute_metrics W r1 x1 s1).2 !! l = Some v.
Proof.
  intros Hr1 Hx1 Hr2 Hx2.
  destruct (compute_metrics_spec W r1 x1 rv xv s1 Hr1 Hx1) as [-> Hg].
  destruct (compute_metrics_spec W r2 x2 rv xv s2 Hr2 Hx2) as [-> _].
  split; [done|]. split; [apply Hg|]. intros l v. by apply grows_lookup.
Qed.

(** X14. A reference with fewer than four axes and a non-empty last axis
    cannot be sliced as [ref[:, :, :, i]]: once the PSNR and the NRMSE are
    computed, [compute_metrics] raises [IndexError]. *)
Theorem compute_metrics_few_axes ref x rv xv (s : state) n p q :
  heap s !! ref = Some rv → heap s !! x = Some xv →
  ndim rv < 4 → last (shape rv) = Some n → n ≠ 0 →
  outcome (compute_psnr W (copy rv) (copy xv)) = Ok p →
  outcome (compute_nrmse W (copy rv) (copy xv)) = Ok q →
  (compute_metrics W ref x s).1 = Raise IndexError.
Proof.
  intros Hr Hx Hnd Hlast Hn Hp Hq.
  destruct (compute_metrics_spec W ref x rv xv s Hr Hx) as [-> _].
  unfold compute_metrics_value. rewrite Hp, Hq. simpl.
  unfold shape_last. rewrite Hlast. simpl.
  destruct n as [|n]; [done|]. simpl.
  unfold per_volume_ssim, subscript. by rewrite (sub_shape_few_axes 0 (shape rv)) by exact Hnd.
Qed.

End edges.

Section invariants.
Context {E : Type} `{!Numeric E} (W : world (E := E)).
Local Abbreviation M := (Recon.M (E := E)).
Local Abbreviation state := (Recon.state (E := E)).
Local Abbreviation event := (Recon.event (E := E)).

(** *** Invariants of the events of a run *)

Lemma always_ret {A} P (a : A) : always P (mret a : M A).
Proof. intros s. exists []. by rewrite app_nil_r. Qed.

Lemma always_emits_nil {A} P (m : M A) : emits m [] → always P m.
Proof.
  intros Hm s. destruct (Hm s) as (new & Ht & H). exists new. split; [done|].
  assert (label_of <$> new = []) as Hnil.
  { destruct (m s).1; [done|]. by apply prefix_nil_inv. }
  apply fmap_nil_inv in Hnil as ->. constructor.
Qed.

Lemma always_emit P (e : event) : P e → always P (emit e).
Proof. intros He s. exists [e]. split; [done|]. by constructor. Qed.

Lemma always_bind {A B} P (m : M A) (k : A → M B) :
  always P m → (∀ a, always P (k a)) → always P (m ≫= k).
Proof.
  intros Hm Hk s. unfold mbind, M_bind.
  destruct (Hm s) as (n1 & Ht1 & H1). destruct (m s) as [[a|e] s1]; simpl in *.
  - destruct (Hk a s1) as (n2 & Ht2 & H2). exists (n1 ++ n2).
    split; [by rewrite Ht2, Ht1, app_assoc|]. by apply Forall_app.
  - by exists n1.
Qed.

Lemma always_foldM {A B} P (f : B → A → M B) b l :
  (∀ b x, always P (f b x)) → always P (foldM f b l).
Proof.
  intros Hf. revert b. induction l as [|x l IH]; intros b; simpl.
  - apply always_ret.
  - apply always_bind; [apply Hf|]. intros b'. apply IH.
Qed.

(** An array that was just made is saved as it is. *)
Lemma always_alloc_save {B} P (v : ndarray E) path (k : loc → M B) :
  (∀ l, P (NpSave path l v)) → (∀ l, always P (k l)) →
  always P (l ← alloc v; _ ← np_save path l; k l).
Proof.
  intros HP Hk s. unfold np_save. unfold mbind, M_bind, alloc, read, emit. simpl.
  rewrite list_lookup_middle by done. simpl.
  destruct (Hk (length (heap s))
              (mk_state (heap s ++ [v]) (trace s ++ [NpSave path (length (heap s)) v])))
    as (new & Ht & Hnew).
  exists (NpSave path (length (heap s)) v :: new). split.
  - rewrite Ht. simpl. by rewrite <- app_assoc.
  - by constructor.
Qed.

Ltac quiet := apply always_emits_nil;
  first [apply emits_lift | apply emits_alloc | apply emits_read | apply emits_call2
        | apply emits_copy_obj | apply compute_metrics_emits | apply emits_ret].

Lemma write_views_png_always P filebase (image : ndarray E) :
  (∀ path v, P (ImWrite path (astype UInt8 v))) →
  always P (write_views_png filebase image).
Proof.
  intros HP. unfold write_views_png, imwrite.
  apply always_bind; [quiet|]. intros m.
  apply always_bind; [quiet|]. intros s0.
  apply always_bind; [quiet|]. intros v0.
  apply always_bind; [by apply always_emit|]. intros _.
  apply always_bind; [quiet|]. intros s1.
  apply always_bind; [quiet|]. intros v1.
  apply always_bind; [by apply always_emit|]. intros _.
  apply always_bind; [quiet|]. intros s2.
  apply always_bind; [quiet|]. intros v2.
  by apply always_emit.
Qed.

Lemma when_plot_always P b title (image : ndarray E) :
  (∀ t v, P (PyplotShow t v)) → always P (when b (show_plot title image)).
Proof.
  intros HP. destruct b; simpl; [|apply always_ret]. unfold show_plot.
  apply always_bind; [quiet|]. intros s0.
  apply always_bind; [quiet|]. intros v.
  by apply always_emit.
Qed.

Lemma write_views_png_dtypes filebase (image : ndarray E) :
  always written_dtype_ok (write_views_png filebase image).
Proof. by apply write_views_png_always. Qed.

Lemma when_plot_dtypes b title (image : ndarray E) :
  always written_dtype_ok (when b (show_plot title image)).
Proof. by apply when_plot_always. Qed.

Lemma apply_mask_dtypes a truth z y :
  always written_dtype_ok (apply_mask W a truth z y).
Proof.
  unfold apply_mask, imwrite.
  apply always_bind; [quiet|]. intros mask.
  apply always_bind; [by apply always_emit|]. intros _.
  apply always_bind; [quiet|]. intros mask'.
  apply always_bind; [quiet|]. intros prod.
  apply always_alloc_save; [done|]. intros l. apply always_ret.
Qed.

Lemma load_sensemap_dtypes a l_in :
  always written_dtype_ok (load_sensemap W a l_in).
Proof.
  unfold load_sensemap. apply always_bind.
  - destruct (truthy _).
    + apply always_bind; [quiet|]. intros v. quiet.
    + apply always_bind; [quiet|]. intros ki.
      apply always_bind; [quiet|]. intros v.
      apply always_alloc_save; [done|]. intros l. apply always_ret.
  - intros l. apply always_bind; [quiet|]. intros v.
    apply always_bind; [quiet|]. intros v'. quiet.
Qed.

Lemma truth_comparison_dtypes a truth :
  always written_dtype_ok (truth_comparison W a truth).
Proof.
  unfold truth_comparison.
  apply always_bind; [quiet|]. intros image_truth.
  apply always_bind; [quiet|]. intros l.
  apply always_bind; [quiet|]. intros it.
  apply always_bind; [quiet|]. intros sos.
  apply always_bind; [apply write_views_png_dtypes|]. intros _.
  apply always_bind; [apply when_plot_dtypes|]. intros _.
  apply always_ret.
Qed.

Lemma input_comparison_dtypes a l_in l_t :
  always written_dtype_ok (input_comparison W a l_in l_t).
Proof.
  unfold input_comparison.
  apply always_bind; [quiet|]. intros ki.
  apply always_bind; [quiet|]. intros image_input.
  apply always_bind; [quiet|]. intros l.
  apply always_bind; [quiet|]. intros results.
  apply always_bind; [quiet|]. intros ii.
  apply always_bind; [quiet|]. intros sos.
  apply always_bind; [apply write_views_png_dtypes|]. intros _.
  apply when_plot_dtypes.
Qed.

Lemma run_model_dtypes a nc z y lvl l_in l_s l_t name :
  always written_dtype_ok (run_model W a nc z y lvl l_in l_s l_t name).
Proof.
  unfold run_model.
  apply always_bind; [quiet|]. intros model.
  apply always_bind; [quiet|]. intros k.
  apply always_bind; [quiet|]. intros vk.
  apply always_bind; [quiet|]. intros vs.
  apply always_bind; [by apply always_emit|]. intros _.
  apply always_bind; [quiet|]. intros out.
  apply always_alloc_save; [done|]. intros l.
  apply always_bind; [quiet|]. intros ko.
  apply always_bind; [quiet|]. intros image_output.
  apply always_bind; [quiet|]. intros l'.
  apply always_bind; [quiet|]. intros results.
  apply always_bind; [quiet|]. intros io.
  apply always_bind; [quiet|]. intros sos.
  apply always_bind; [apply write_views_png_dtypes|]. intros _.
  apply when_plot_dtypes.
Qed.

(** X15. Whatever a run writes has the dtype the script converts to: every
    image is [uint8] and every array file holds [complex64] data; this
    holds of every run, completed or not. *)
Theorem run_written_dtypes a :
  Forall (λ e, match e with
               | ImWrite _ img => arr_dtype img = UInt8
               | NpSave _ _ arr => arr_dtype arr = Complex64
               | _ => True
               end) (trace (run W a).2).
Proof.
  assert (always written_dtype_ok (main W a)) as Hmain.
  { unfold main.
    apply always_bind; [quiet|]. intros truth.
    apply always_bind; [quiet|]. intros nc.
    apply always_bind; [quiet|]. intros z.
    apply always_bind; [quiet|]. intros y.
    apply always_bind; [quiet|]. intros x.
    apply always_bind.
    { destruct (negb _); simpl; [by apply always_emit|apply always_ret]. }
    intros _.
    apply always_bind; [apply apply_mask_dtypes|]. intros l_in.
    apply always_bind; [apply load_sensemap_dtypes|]. intros l_s.
    apply always_bind; [apply truth_comparison_dtypes|]. intros l_t.
    apply always_bind; [apply input_comparison_dtypes|]. intros _.
    apply always_bind; [quiet|]. intros model_list.
    apply always_foldM. intros _ name. apply run_model_dtypes. }
  destruct (Hmain (mk_state [] [])) as (new & Ht & Hnew).
  unfold run. rewrite Ht. exact Hnew.
Qed.

(** What holds while the models leave the sensitivity maps alone: the maps
    and the truth image hold what they held, and every call so far received
    the maps [vs]. *)
Lemma run_model_maps a nc z y lvl l_in l_s l_t name vs tv (s0 s : state) :
  let P := λ e : event,
             match e with Call _ _ _ _ v => v = vs | _ => True end in
  let keeps := λ s' : state,
                 heap s' !! l_s = Some vs ∧ heap s' !! l_t = Some tv ∧
                 ∃ new, trace s' = trace s0 ++ new ∧ Forall P new in
  l_t ≠ l_s →
  (∀ f k sv, DeepRecon W (path_join (arg_model_root_dir a) name) nc z y
               (arg_batch_size a) lvl = Ok f → (f k sv).2 = sv) →
  keeps s →
  wp (run_model W a nc z y lvl l_in l_s l_t name) (λ _ s', keeps s') s.
Proof.
  intros P keeps Hnt Hpure (Hs & Ht & new & Htr & Hnew). unfold run_model.
  pose proof (lookup_lt_Some _ _ _ Hs) as Hls.
  pose proof (lookup_lt_Some _ _ _ Ht) as Hlt.
  assert (keeps s) as Hkeep by (repeat split; eauto).
  apply wp_bind, wp_lift.
  destruct (DeepRecon _ _ _ _ _ _ _) as [model|] eqn:Hmodel; simpl; [|done].
  unfold copy_obj. apply wp_bind, wp_bind, wp_read.
  destruct (heap s !! l_in) as [ki|]; simpl; [|done].
  apply wp_alloc. simpl.
  apply wp_bind, wp_read. simpl. rewrite list_lookup_middle by done. simpl.
  apply wp_bind, wp_read. simpl. rewrite (lookup_app_l_Some _ _ _ _ Hs). simpl.
  apply wp_bind, wp_emit. simpl.
  unfold call2. apply wp_bind, wp_bind, wp_read. simpl.
  rewrite list_lookup_middle by done. simpl.
  apply wp_bind, wp_read. simpl. rewrite (lookup_app_l_Some _ _ _ _ Hs). simpl.
  pose proof (Hpure model (copy ki) vs eq_refl) as Hmaps.
  destruct (model (copy ki) vs) as [[r vk'] vs']. simpl in Hmaps. subst vs'.
  apply wp_bind, wp_write. simpl. apply wp_bind, wp_write. simpl. apply wp_lift.
  set (h1 := <[l_s := vs]> (<[length (heap s) := vk']> (heap s ++ [copy ki]))).
  set (t1 := trace s ++ [Call _ (length (heap s)) l_s (copy ki) vs]).
  assert (h1 !! l_s = Some vs) as Hs1.
  { apply list_lookup_insert_eq. rewrite length_insert, length_app. simpl. lia. }
  assert (h1 !! l_t = Some tv) as Ht1.
  { unfold h1. rewrite !list_lookup_insert_ne by lia. by apply lookup_app_l_Some. }
  assert (∃ new1, t1 = trace s0 ++ new1 ∧ Forall P new1) as Htr1.
  { exists (new ++ [Call (path_join (arg_model_root_dir a) name)
                      (length (heap s)) l_s (copy ki) vs]).
    split; [unfold t1; by rewrite Htr, app_assoc|].
    apply Forall_app. split; [done|]. by repeat constructor. }
  destruct r as [kspace_output|]; [|done].
  apply wp_bind, wp_alloc. simpl.
  apply wp_bind. unfold np_save. apply wp_bind, wp_read. simpl.
  rewrite list_lookup_middle by done. simpl. apply wp_emit. simpl.
  apply wp_bind, wp_read. simpl. rewrite list_lookup_middle by done. simpl.
  apply wp_bind, wp_lift. destruct (ifft3c _ _) as [image_output|]; simpl.
  2:{ repeat split; [by apply lookup_app_l_Some..|].
      destruct Htr1 as (new1 & -> & Hnew1). eexists. rewrite <- app_assoc.
      split; [done|]. apply Forall_app. split; [done|]. by repeat constructor. }
  apply wp_bind, wp_alloc. simpl.
  set (l' := length (h1 ++ [astype Complex64 kspace_output])).
  set (s2 := mk_state _ _).
  assert (heap s2 !! l' = Some image_output) as Hl' by by apply list_lookup_middle.
  assert (keeps s2) as Hk2.
  { repeat split; simpl; [by do 2 apply lookup_app_l_Some..|].
    destruct Htr1 as (new1 & -> & Hnew1). eexists. rewrite <- app_assoc.
    split; [done|]. apply Forall_app. split; [done|]. by repeat constructor. }
  clearbody s2 l'. clear Htr1 Hs1 Ht1. clear h1 t1.
  destruct Hk2 as (Hs2 & Ht2 & new2 & Htr2 & Hnew2).
  assert (∀ (m : M unit) s', (∀ s, heap (m s).2 = heap s) → always P m →
            keeps s' → keeps (m s').2) as Hquiet.
  { intros m s' Hheap Hal (Hs' & Ht' & new' & Htr' & Hnew').
    destruct (Hal s') as (n & Hn & HPn). repeat split; rewrite ?Hheap; try done.
    exists (new' ++ n). split; [by rewrite Hn, Htr', app_assoc|]. by apply Forall_app. }
  apply wp_bind. eapply wp_mono; [by apply (compute_metrics_spec W _ _ tv image_output)|].
  intros r s3 [_ Hg]. simpl.
  assert (keeps s3) as Hk3.
  { repeat split; [by eapply grows_lookup..|]. exists new2.
    split; [|done]. destruct Hg as [_ ->]. done. }
  destruct r as [results|]; [|done].
  apply wp_bind, wp_read. destruct (heap s3 !! l') as [io|]; simpl; [|done].
  apply wp_bind, wp_lift. destruct (sumofsq _ _ _) as [sos|]; simpl; [|done].
  pose proof (Hquiet (write_views_png (path_join (arg_output_dir a) name) sos) s3
                (write_views_png_heap _ _)
                (write_views_png_always P _ _ (λ _ _, I)) Hk3) as Hk4.
  unfold wp, mbind, M_bind.
  destruct (write_views_png _ sos s3) as [[[]|e] s4]; [|done]. simpl in Hk4.
  exact (Hquiet (when (arg_plot a) (show_plot name sos)) s4
           (when_plot_heap _ _ _) (when_plot_always P _ _ _ (λ _ _, I)) Hk4).
Qed.

(** X16. While the models leave the sensitivity maps they receive alone,
    every call of [model.run] of the loop receives the same maps, and the
    maps hold after the loop what they held before it. *)
Theorem model_loop_shares_maps a nc z y lvl l_in l_s l_t model_list vs tv (s : state) :
  heap s !! l_s = Some vs → heap s !! l_t = Some tv → l_t ≠ l_s →
  (∀ name f k sv,
     name ∈ model_list →
     DeepRecon W (path_join (arg_model_root_dir a) name) nc z y
       (arg_batch_size a) lvl = Ok f →
     (f k sv).2 = sv) →
  heap (model_loop W a nc z y lvl l_in l_s l_t model_list s).2 !! l_s = Some vs ∧
  ∃ new,
    trace (model_loop W a nc z y lvl l_in l_s l_t model_list s).2 = trace s ++ new ∧
    Forall (λ '(name, k, ls, vk, v), v = vs) (calls new).
Proof.
  intros Hs Ht Hnt Hpure.
  set (P := λ e : event, match e with Call _ _ _ _ v => v = vs | _ => True end).
  set (keeps := λ s' : state,
                  heap s' !! l_s = Some vs ∧ heap s' !! l_t = Some tv ∧
                  ∃ new, trace s' = trace s ++ new ∧ Forall P new).
  assert (∀ s1, keeps s1 →
            wp (model_loop W a nc z y lvl l_in l_s l_t model_list)
               (λ _ s', keeps s') s1) as Hloop.
  { unfold model_loop. generalize tt.
    induction model_list as [|name model_list IH]; intros u s1 Hk; simpl.
    - by apply wp_ret.
    - apply wp_bind. eapply wp_mono.
      { apply (run_model_maps a nc z y lvl l_in l_s l_t name vs tv s s1); [done| |done].
        intros f k sv. apply Hpure. by left. }
      intros r s2 Hk2. simpl in Hk2. destruct r; [|done].
      apply IH; [|done]. intros name' f k sv Hin. apply Hpure. by right. }
  destruct (Hloop s) as (Hs' & _ & new & Htr & Hnew).
  { repeat split; [done..|]. exists []. by rewrite app_nil_r. }
  split; [done|]. exists new. split; [done|].
  clear Htr. induction Hnew as [|e new He _ IH]; [constructor|].
  destruct e; simpl in *; try done. by constructor.
Qed.

Lemma saves_app (tr1 tr2 : list event) : saves (tr1 ++ tr2) = saves tr1 ++ saves tr2.
Proof. apply omap_app. Qed.

Lemma saves_none (new : list event) :
  Forall (λ e, match e with NpSave _ _ _ => False | _ => True end) new →
  saves new = [].
Proof. induction 1 as [|e new He _ IH]; [done|]. by destruct e. Qed.

(** X17. The output of a model is saved before it is evaluated: when
    [model.run] returns, its result converted to [complex64] is the one
    array that the iteration saves, to [kspace_<entry>.npy], whatever
    happens afterwards in the transform, the metrics or the views; when
    [model.run] raises, the iteration raises the same exception and saves
    nothing. *)
Theorem run_model_saves_output a nc z y lvl l_in l_s l_t name f ki vs (s : state) :
  DeepRecon W (path_join (arg_model_root_dir a) name) nc z y
    (arg_batch_size a) lvl = Ok f →
  heap s !! l_in = Some ki → heap s !! l_s = Some vs →
  match outcome (f (copy ki) vs) with
  | Ok out =>
      ∃ l, length (heap s) < l ∧
           saves (trace (run_model W a nc z y lvl l_in l_s l_t name s).2)
           = saves (trace s) ++ [(model_file a name, l, astype Complex64 out)]
  | Raise e =>
      (run_model W a nc z y lvl l_in l_s l_t name s).1 = Raise e ∧
      saves (trace (run_model W a nc z y lvl l_in l_s l_t name s).2) = saves (trace s)
  end.
Proof.
  intros Hmodel Hin Hs.
  set (P := λ e : event, match e with NpSave _ _ _ => False | _ => True end).
  change (wp (run_model W a nc z y lvl l_in l_s l_t name)
            (λ r s',
               match outcome (f (copy ki) vs) with
               | Ok out =>
                   ∃ l, length (heap s) < l ∧
                        saves (trace s')
                        = saves (trace s) ++ [(model_file a name, l, astype Complex64 out)]
               | Raise e => r = Raise e ∧ saves (trace s') = saves (trace s)
               end) s).
  unfold run_model.
  apply wp_bind, wp_lift. rewrite Hmodel. simpl.
  apply (wp_copy_obj _ ki); [done|].
  apply wp_bind, wp_read. simpl. rewrite list_lookup_middle by done. simpl.
  apply wp_bind, wp_read. simpl. rewrite (lookup_app_l_Some _ _ _ _ Hs). simpl.
  apply wp_bind, wp_emit. simpl.
  unfold call2. apply wp_bind, wp_bind, wp_read. simpl.
  rewrite list_lookup_middle by done. simpl.
  apply wp_bind, wp_read. simpl. rewrite (lookup_app_l_Some _ _ _ _ Hs). simpl.
  unfold outcome. destruct (f (copy ki) vs) as [[r vk'] vs']. simpl.
  apply wp_bind, wp_write. simpl. apply wp_bind, wp_write. simpl. apply wp_lift.
  destruct r as [out|e].
  2:{ split; [done|]. cbn [trace]. by rewrite saves_app, app_nil_r. }
  apply wp_bind, wp_alloc. simpl.
  apply wp_bind. unfold np_save. apply wp_bind, wp_read. simpl.
  rewrite list_lookup_middle by done. simpl. apply wp_emit. simpl.
  set (h := <[l_s := vs']> (<[length (heap s) := vk']> (heap s ++ [copy ki]))).
  assert (length h = S (length (heap s))) as Hh
    by (unfold h; rewrite !length_insert, length_app; simpl; lia).
  set (st := mk_state _ _).
  assert (always P
            (ko ← read (length h);
             image_output ← lift (ifft3c W ko);
             image_output ← alloc image_output;
             results ← compute_metrics W l_t image_output;
             io ← read image_output;
             image_output_sos ← lift (sumofsq W io 0);
             _ ← write_views_png (path_join (arg_output_dir a) name) image_output_sos;
             when (arg_plot a) (show_plot name image_output_sos))) as Htail.
  { apply always_bind; [quiet|]. intros ko.
    apply always_bind; [quiet|]. intros image_output.
    apply always_bind; [quiet|]. intros l'.
    apply always_bind; [quiet|]. intros results.
    apply always_bind; [quiet|]. intros io.
    apply always_bind; [quiet|]. intros sos.
    apply always_bind; [by apply write_views_png_always|]. intros _.
    by apply when_plot_always. }
  unfold wp. destruct (Htail st) as (new & -> & Hnew).
  exists (length h). split; [lia|].
  subst st. cbn [trace]. rewrite !saves_app, (saves_none new Hnew). simpl.
  by rewrite !app_nil_r.
Qed.

End invariants.

End ReconFacts.

(** ** The theorems at work on the concrete machine *)

Module Witnesses.
Import NDArray NDArrayFacts Recon ReconFacts Binary64.

(** On binary64 numbers, [0 / (0 * 0.9)] is a NaN, and the pixel it gives
    is 0. *)
Lemma zero_over_zero :
  PrimFloat.is_nan (num_div (num_of_Z 0) (num_mul (num_of_Z 0) num_0_9)) = true ∧
  view_pixel (num_of_Z 0) (num_of_Z 0) = 0%float.
Proof. split; vm_compute; reflexivity. Qed.

(** C1 on a run with two models and supplied maps. *)
Lemma kspace_input_saved_once_witness :
  ∃ l_in ki pre new,
    trace (run (world0 ["a"; "b"]) (args0 (Some "maps.npy"))).2
    = pre ++ NpSave "out/kspace_input.npy" l_in ki :: new ∧
    saves pre = [] ∧
    Forall (λ '(path, l, v), l ≠ l_in) (saves new) ∧
    arr_dtype ki = Complex64 ∧ shape ki = [1; 2; 2; 1] ∧
    ∀ ci zi yi xi, ci < 1 → zi < 2 → yi < 2 → xi < 1 →
      ∃ mv tv, get mask0 [zi; yi] = Some mv ∧
               get truth0 [ci; zi; yi; xi] = Some tv ∧
               get ki [ci; zi; yi; xi] = Some (num_cast Complex64 (num_mul mv tv)).
Proof.
  apply (kspace_input_saved_once (world0 ["a"; "b"]) (args0 (Some "maps.npy"))
           truth0 mask0 1 2 2 1); vm_compute; reflexivity.
Defined.

(** C2 on maps of shape [(8,64,64,64)] and on maps of five axes. *)
Lemma add_maps_dimension_witness :
  (∃ v', add_maps_dimension (ones Complex64 [8; 64; 64; 64]) = Ok v' ∧
         shape v' = [1; 8; 64; 64; 64]) ∧
  (∃ v', add_maps_dimension (ones Complex64 [1; 1; 2; 2; 1]) = Ok v' ∧
         v' = ones Complex64 [1; 1; 2; 2; 1]).
Proof.
  destruct (add_maps_dimension_spec (ones Complex64 [8; 64; 64; 64]))
    as (v4 & H4 & _ & _ & _ & _ & Hs4).
  destruct (add_maps_dimension_spec (ones Complex64 [1; 1; 2; 2; 1]))
    as (v5 & H5 & _ & _ & Hs5 & _).
  split.
  - exists v4. split; [exact H4|exact (Hs4 eq_refl)].
  - exists v5. split; [exact H5|exact (Hs5 eq_refl)].
Defined.

(** C2 as stated fails on maps of six axes: they are not left unchanged,
    they get a seventh axis. *)
Lemma add_maps_dimension_six_axes :
  5 ≤ ndim maps6 ∧
  add_maps_dimension maps6 = Ok (ones Complex64 [1; 1; 1; 1; 2; 2; 1]) ∧
  add_maps_dimension maps6 ≠ Ok maps6.
Proof.
  split; [vm_compute; lia|]. split; [reflexivity|].
  intros H. vm_compute in H. discriminate H.
Qed.

(** C3 on a loop over two models that clear the maps they are given. *)
Lemma model_loop_passes_kspace_copy_witness :
  heap (model_loop (world0 []) (args0 None) 1 2 2 WARNING 0 1 2 ["a"; "b"]
          store_loop).2 !! 0
  = Some (mk_ndarray Complex64 [1; 2; 2; 1] [1; 0; 0; 4]%float) ∧
  ∃ new,
    trace (model_loop (world0 []) (args0 None) 1 2 2 WARNING 0 1 2 ["a"; "b"]
             store_loop).2 = trace store_loop ++ new ∧
    Forall (λ '(name, k, ls, vk, vs),
              length (heap store_loop) ≤ k ∧ ls = 1 ∧
              vk = mk_ndarray Complex64 [1; 2; 2; 1] [1; 0; 0; 4]%float)
           (calls new).
Proof.
  apply (model_loop_passes_kspace_copy (world0 []) (args0 None) 1 2 2 WARNING
           0 1 2 ["a"; "b"] _ truth0 store_loop); [reflexivity|lia|reflexivity|lia].
Defined.

(** C3 as stated fails: the maps are not copied.  In a run with two models
    that clear the maps they are given, both calls receive the same object,
    and the second model consumes other maps than the first. *)
Lemma second_model_sees_cleared_maps :
  ∃ k1 k2 l vk vs1 vs2,
    calls (trace (run (world0 ["a"; "b"]) (args0 None)).2)
    = [("models/a", k1, l, vk, vs1); ("models/b", k2, l, vk, vs2)] ∧
    vs1 ≠ vs2.
Proof.
  do 6 eexists. split; [vm_compute; reflexivity|].
  intros H. apply (f_equal (λ v, Prim2SF <$> data v)) in H. vm_compute in H.
  discriminate H.
Qed.

(** C4 on a reference and a candidate with two volumes. *)
Lemma compute_metrics_ssim_is_mean_witness :
  (compute_metrics (world0 []) 0 1 store0).1
  = Ok (mk_metrics 30%float 0.5%float
          (PyNum (arithmetic_mean ((λ _, 0.75%float) <$> seq 0 2)))).
Proof.
  apply (compute_metrics_ssim_is_mean (world0 []) 0 1
           (mk_ndarray Complex64 [1; 1; 1; 2] [1; 2]%float)
           (mk_ndarray Complex64 [1; 1; 1; 2] [1; 3]%float)
           store0 1 1 1 2); try reflexivity; [lia|].
  intros [|[|i]] Hi; [reflexivity|reflexivity|lia].
Defined.

(** C6 on a reference whose last axis is empty. *)
Lemma compute_metrics_zero_extent_witness :
  (compute_metrics (world0 []) 0 1 store_empty).1 = Raise ZeroDivisionError.
Proof.
  apply (compute_metrics_zero_extent (world0 []) 0 1
           (mk_ndarray Complex64 [1; 1; 1; 0] [])
           (mk_ndarray Complex64 [1; 1; 1; 0] [])
           store_empty 30%float 0.5%float); reflexivity.
Defined.

(** C7 with metric routines that overwrite the arrays they are given. *)
Lemma compute_metrics_preserves_arguments_witness :
  heap (compute_metrics (world0 []) 0 1 store0).2 !! 0
  = Some (mk_ndarray Complex64 [1; 1; 1; 2] [1; 2]%float) ∧
  heap (compute_metrics (world0 []) 0 1 store0).2 !! 1
  = Some (mk_ndarray Complex64 [1; 1; 1; 2] [1; 3]%float).
Proof.
  destruct (compute_metrics_preserves_arguments (world0 []) 0 1
              (mk_ndarray Complex64 [1; 1; 1; 2] [1; 2]%float)
              (mk_ndarray Complex64 [1; 1; 1; 2] [1; 3]%float)
              store0 eq_refl eq_refl) as (H0 & H1 & _).
  exact (conj H0 H1).
Defined.

(** C8 on a [1 x 2 x 2] volume. *)
Lemma write_views_png_views_witness :
  ∃ m sag cor ax,
    amax (absolute volume0) = Ok m ∧
    write_views_png "out/truth" volume0 store0
    = (Ok tt, mk_state (heap store0)
                (trace store0 ++ [ImWrite "out/truth_sag.png" sag;
                                  ImWrite "out/truth_cor.png" cor;
                                  ImWrite "out/truth_ax.png" ax])) ∧
    (arr_dtype sag = UInt8 ∧ shape sag = [2; 2] ∧
     ∀ j k, j < 2 → k < 2 →
       get sag [j; k] = view_pixel m <$> get volume0 [1 / 2; j; k]) ∧
    (arr_dtype cor = UInt8 ∧ shape cor = [1; 2] ∧
     ∀ i k, i < 1 → k < 2 →
       get cor [i; k] = view_pixel m <$> get volume0 [i; 2 / 2; k]) ∧
    (arr_dtype ax = UInt8 ∧ shape ax = [1; 2] ∧
     ∀ i j, i < 1 → j < 2 →
       get ax [i; j] = view_pixel m <$> get volume0 [i; j; 2 / 2]).
Proof.
  apply (write_views_png_views "out/truth" volume0 1 2 2 store0);
    [reflexivity|reflexivity|lia|lia|lia].
Defined.

(** C8 as stated fails on a volume with an empty axis: the maximum of no
    element is an error, and no file is written. *)
Lemma write_views_png_empty_volume :
  valid empty_volume ∧ ndim empty_volume = 3 ∧
  write_views_png "out/truth" empty_volume store0 = (Raise ValueError, store0).
Proof. repeat split. Qed.

(** C9 on a [2 x 2 x 2] volume of zeros. *)
Lemma write_views_png_all_zero_witness :
  ∃ m sag cor ax,
    amax (absolute zero_volume) = Ok m ∧
    write_views_png "out/truth" zero_volume store0
    = (Ok tt, mk_state (heap store0)
                (trace store0 ++ [ImWrite "out/truth_sag.png" sag;
                                  ImWrite "out/truth_cor.png" cor;
                                  ImWrite "out/truth_ax.png" ax])) ∧
    Forall (λ p, p = view_pixel m (num_of_Z 0)) (data sag ++ data cor ++ data ax).
Proof.
  apply (write_views_png_all_zero "out/truth" zero_volume 2 2 2 store0);
    [reflexivity|reflexivity|lia|lia|lia|].
  vm_compute. repeat constructor.
Defined.

(** C10 on supplied maps of four axes, on a whole run with supplied maps,
    and on computed maps. *)
Lemma load_sensemap_branches_witness :
  (∃ v', add_maps_dimension (ones Complex128 [1; 2; 2; 1]) = Ok v' ∧
         arr_dtype v' = Complex128 ∧ data v' = data (ones Complex128 [1; 2; 2; 1]) ∧
         load_sensemap (world0 []) (args0 (Some "maps.npy")) 0 store_loop
         = (Ok 4, mk_state (heap store_loop ++ [ones Complex128 [1; 2; 2; 1]; v'])
                    (trace store_loop))) ∧
  Forall (λ e, written_file e ≠ Some "out/sensemap.npy")
         (trace (run (world0 ["a"; "b"]) (args0 (Some "maps.npy"))).2) ∧
  (∃ v', add_maps_dimension (astype Complex64 (ones Complex128 [1; 2; 2; 1])) = Ok v' ∧
         arr_dtype v' = Complex64 ∧
         data v' = num_cast Complex64 <$> data (ones Complex128 [1; 2; 2; 1]) ∧
         load_sensemap (world0 []) (args0 None) 0 store_loop
         = (Ok 4, mk_state (heap store_loop
                            ++ [astype Complex64 (ones Complex128 [1; 2; 2; 1]); v'])
                    (trace store_loop
                     ++ [NpSave "out/sensemap.npy" 3
                           (astype Complex64 (ones Complex128 [1; 2; 2; 1]))]))).
Proof.
  split; [|split].
  - apply (proj1 (load_sensemap_branches (world0 []) (args0 (Some "maps.npy")))
                 0 store_loop "maps.npy"); reflexivity.
  - apply (proj1 (proj2 (load_sensemap_branches (world0 ["a"; "b"])
                            (args0 (Some "maps.npy")))) "maps.npy");
      [reflexivity|vm_compute; reflexivity].
  - apply (proj2 (proj2 (load_sensemap_branches (world0 []) (args0 None)))
                 0 store_loop
                 (mk_ndarray Complex64 [1; 2; 2; 1] [1; 0; 0; 4]%float));
      reflexivity.
Defined.

(** The file [kspace_input.npy] on a run with the models [a] and [b]. *)
Lemma kspace_input_file_written_once_witness :
  ∃ l_in ki pre new,
    trace (run (world0 ["a"; "b"]) (args0 None)).2
    = pre ++ NpSave "out/kspace_input.npy" l_in ki :: new ∧
    Forall (λ e, written_file e ≠ Some "out/kspace_input.npy") (pre ++ new).
Proof.
  apply (kspace_input_file_written_once (world0 ["a"; "b"]) (args0 None)).
  - vm_compute. intros H. repeat (apply elem_of_cons in H as [H|H]; [discriminate H|]).
    by apply elem_of_nil in H.
  - vm_compute. reflexivity.
Defined.

(** With a model directory named [input], the output of that model is
    saved to [kspace_input.npy] as well: the file is written twice, by two
    different objects. *)
Lemma model_named_input_shares_the_file :
  ∃ ki l out,
    saves (trace (run (world0 ["input"]) (args0 (Some "maps.npy"))).2)
    = [("out/kspace_input.npy", 0, ki); ("out/kspace_input.npy", l, out)] ∧
    l ≠ 0.
Proof. do 3 eexists. split; [vm_compute; reflexivity|lia]. Qed.

(** X2 on a run with two models and computed maps. *)
Lemma run_output_files_witness :
  written_files (trace (run (world0 ["a"; "b"]) (args0 None)).2)
  = ["out/mask.png"; "out/kspace_input.npy"; "out/sensemap.npy";
     "out/truth_sag.png"; "out/truth_cor.png"; "out/truth_ax.png";
     "out/input_sag.png"; "out/input_cor.png"; "out/input_ax.png";
     "out/kspace_a.npy"; "out/a_sag.png"; "out/a_cor.png"; "out/a_ax.png";
     "out/kspace_b.npy"; "out/b_sag.png"; "out/b_cor.png"; "out/b_ax.png"].
Proof.
  apply (proj2 (run_output_files (world0 ["a"; "b"]) (args0 None))).
  vm_compute. reflexivity.
Defined.

(** X3 on the same run. *)
Lemma run_calls_models_witness :
  called_models (trace (run (world0 ["a"; "b"]) (args0 None)).2)
  = ["models/a"; "models/b"].
Proof.
  apply (proj2 (run_calls_models (world0 ["a"; "b"]) (args0 None))).
  vm_compute. reflexivity.
Defined.

(** X4 on a run with [--plot] and on a run without. *)
Lemma run_shows_figures_witness :
  shown_titles (trace (run (world0 ["a"; "b"]) args_plot).2)
  = ["Truth"; "Input"; "a"; "b"] ∧
  shown_titles (trace (run (world0 ["a"; "b"]) (args0 None)).2) = [].
Proof.
  split.
  - apply (proj2 (run_shows_figures (world0 ["a"; "b"]) args_plot)).
    vm_compute. reflexivity.
  - apply (proj2 (run_shows_figures (world0 ["a"; "b"]) (args0 None))).
    vm_compute. reflexivity.
Defined.

(** X5 on a run whose output directory exists and on one where it is
    missing. *)
Lemma run_creates_output_dir_witness :
  Forall (λ e, ∀ dir, e ≠ Makedirs dir)
         (trace (run (world1 truth0 careful_model ["a"]) (args0 None)).2) ∧
  (trace (run (world0 ["a"]) (args0 None)).2 = [] ∨
   ∃ rest, trace (run (world0 ["a"]) (args0 None)).2 = Makedirs "out" :: rest ∧
           Forall (λ e, ∀ dir, e ≠ Makedirs dir) rest).
Proof.
  split.
  - apply (proj1 (run_creates_output_dir (world1 truth0 careful_model ["a"])
                    (args0 None))). reflexivity.
  - apply (proj2 (run_creates_output_dir (world0 ["a"]) (args0 None))). reflexivity.
Defined.

(** X6 on a run with two models. *)
Lemma run_models_receive_saved_input_witness :
  ∃ l_in l_s ki pre new,
    trace (run (world0 ["a"; "b"]) (args0 None)).2
    = pre ++ NpSave "out/kspace_input.npy" l_in ki :: new ∧
    calls pre = [] ∧
    Forall (λ '(name, k, ls, vk, vs), k ≠ l_in ∧ ls = l_s ∧ vk = ki) (calls new) ∧
    heap (run (world0 ["a"; "b"]) (args0 None)).2 !! l_in = Some ki.
Proof.
  apply (run_models_receive_saved_input (world0 ["a"; "b"]) (args0 None)).
  vm_compute. reflexivity.
Defined.

(** X7 on a truth k-space with three axes. *)
Lemma run_rejects_short_truth_witness :
  run (world1 volume0 careful_model ["a"]) (args0 None)
  = (Raise IndexError, mk_state [] []).
Proof.
  apply (run_rejects_short_truth (world1 volume0 careful_model ["a"]) (args0 None)
           volume0); [reflexivity|vm_compute; lia].
Defined.

(** X8 on the truth k-space and the mask of [world0]. *)
Lemma apply_mask_succeeds_witness :
  ∃ ki,
    apply_mask (world0 []) (args0 None) truth0 2 2 store0
    = (Ok 2, mk_state (heap store0 ++ [ki])
               (trace store0
                ++ [ImWrite "out/mask.png"
                      (astype UInt8 (mul_scalar (absolute mask0) (num_of_Z 255)));
                    NpSave "out/kspace_input.npy" 2 ki])) ∧
    arr_dtype ki = Complex64 ∧ shape ki = [1; 2; 2; 1] ∧ valid ki.
Proof.
  apply (apply_mask_succeeds (world0 []) (args0 None) truth0 mask0 1 2 2 1 store0);
    reflexivity.
Defined.

(** X9 on the same step. *)
Lemma apply_mask_writes_mask_image_witness :
  ∃ img ki,
    trace (apply_mask (world0 []) (args0 None) truth0 2 2 store0).2
    = trace store0 ++ [ImWrite "out/mask.png" img; NpSave "out/kspace_input.npy" 2 ki] ∧
    arr_dtype img = UInt8 ∧ shape img = shape mask0 ∧
    ∀ idx, get img idx
           = (λ v, num_cast UInt8 (num_mul (num_abs v) (num_of_Z 255))) <$> get mask0 idx.
Proof.
  apply (apply_mask_writes_mask_image (world0 []) (args0 None) truth0 mask0 2 2 store0);
    [reflexivity|vm_compute; reflexivity].
Defined.

(** X10 on a volume whose first axis is empty. *)
Lemma write_views_png_rejects_empty_witness :
  write_views_png "out/truth" empty_volume store0 = (Raise ValueError, store0).
Proof.
  apply (write_views_png_rejects_empty "out/truth" empty_volume store0); reflexivity.
Defined.

(** X11 on an image with two axes. *)
Lemma write_views_png_rejects_few_axes_witness :
  write_views_png "out/truth" plane0 store0 = (Raise IndexError, store0).
Proof.
  apply (write_views_png_rejects_few_axes "out/truth" plane0 store0);
    [reflexivity|vm_compute; lia|vm_compute; lia].
Defined.

(** X13 on the arrays of [store0], found at other places in
    [store0_moved]. *)
Lemma compute_metrics_pure_witness :
  (compute_metrics (world0 []) 0 1 store0).1
  = (compute_metrics (world0 []) 2 1 store0_moved).1 ∧
  trace (compute_metrics (world0 []) 0 1 store0).2 = trace store0 ∧
  ∀ l v, heap store0 !! l = Some v →
         heap (compute_metrics (world0 []) 0 1 store0).2 !! l = Some v.
Proof.
  apply (compute_metrics_pure (world0 []) 0 1 2 1
           (mk_ndarray Complex64 [1; 1; 1; 2] [1; 2]%float)
           (mk_ndarray Complex64 [1; 1; 1; 2] [1; 3]%float)); reflexivity.
Defined.

(** X14 on a reference with three axes. *)
Lemma compute_metrics_few_axes_witness :
  (compute_metrics (world0 []) 0 1 store_flat).1 = Raise IndexError.
Proof.
  apply (compute_metrics_few_axes (world0 []) 0 1
           (mk_ndarray Complex64 [1; 1; 2] [1; 2]%float)
           (mk_ndarray Complex64 [1; 1; 2] [1; 3]%float)
           store_flat 2 30%float 0.5%float);
    [reflexivity|reflexivity|vm_compute; lia|reflexivity|lia|reflexivity|reflexivity].
Defined.

(** X16 on a loop over two models that leave the maps alone. *)
Lemma model_loop_shares_maps_witness :
  heap (model_loop (world1 truth0 careful_model []) (args0 None) 1 2 2 WARNING
          0 1 2 ["a"; "b"] store_loop).2 !! 1
  = Some (ones Complex64 [1; 1; 2; 2; 1]) ∧
  ∃ new,
    trace (model_loop (world1 truth0 careful_model []) (args0 None) 1 2 2 WARNING
             0 1 2 ["a"; "b"] store_loop).2 = trace store_loop ++ new ∧
    Forall (λ '(name, k, ls, vk, v), v = ones Complex64 [1; 1; 2; 2; 1]) (calls new).
Proof.
  apply (model_loop_shares_maps (world1 truth0 careful_model []) (args0 None)
           1 2 2 WARNING 0 1 2 ["a"; "b"] _ truth0 store_loop);
    [reflexivity|reflexivity|lia|].
  intros name f k sv _ [= <-]. reflexivity.
Defined.

(** X12 on a [1 x 2 x 2] volume. *)
Lemma write_views_png_files_witness :
  ∃ new,
    trace (write_views_png "out/truth" volume0 store0).2 = trace store0 ++ new ∧
    label_of <$> new
    = [LImage "out/truth_sag.png"; LImage "out/truth_cor.png"; LImage "out/truth_ax.png"].
Proof.
  destruct (write_views_png_files "out/truth" volume0 store0)
    as (_ & new & Ht & _ & Heq).
  exists new. split; [exact Ht|]. apply Heq. vm_compute. reflexivity.
Defined.

(** X17 on a model that returns and on a model that raises. *)
Lemma run_model_saves_output_witness :
  (∃ l, length (heap store_loop) < l ∧
        saves (trace (run_model (world0 []) (args0 None) 1 2 2 WARNING 0 1 2 "a"
                        store_loop).2)
        = saves (trace store_loop)
          ++ [("out/kspace_a.npy", l,
               astype Complex64 (mk_ndarray Complex64 [1; 2; 2; 1] [1; 0; 0; 4]%float))]) ∧
  (run_model (world1 truth0 failing_model []) (args0 None) 1 2 2 WARNING 0 1 2 "a"
     store_loop).1 = Raise (ExternalError "model") ∧
  saves (trace (run_model (world1 truth0 failing_model []) (args0 None) 1 2 2 WARNING
                  0 1 2 "a" store_loop).2) = saves (trace store_loop).
Proof.
  split.
  - exact (run_model_saves_output (world0 []) (args0 None) 1 2 2 WARNING 0 1 2 "a"
             clearing_model (mk_ndarray Complex64 [1; 2; 2; 1] [1; 0; 0; 4]%float)
             (ones Complex64 [1; 1; 2; 2; 1]) store_loop eq_refl eq_refl eq_refl).
  - exact (run_model_saves_output (world1 truth0 failing_model []) (args0 None)
             1 2 2 WARNING 0 1 2 "a"
             failing_model (mk_ndarray Complex64 [1; 2; 2; 1] [1; 0; 0; 4]%float)
             (ones Complex64 [1; 1; 2; 2; 1]) store_loop eq_refl eq_refl eq_refl).
Defined.

End Witnesses.
